(** * DoctorAi: symptom extraction, disease scoring and the routes

    A shallow embedding of [predictor.py], [utils.py] and the routes of
    [app.py].

    - Python floats are IEEE 754 binary64 numbers, modelled with the
      executable specification [SpecFloat] of the Standard Library
      (precision 53, exponent bound 1024).
    - Module-level tables ([all_symptoms], [symptom_synonyms],
      [symptom_disease_map], [diseases_data], [stop_words]) live in a
      record of globals that every function receives and hands back, so
      that "does not mutate" is a statement and not a typing accident.
    - Exceptions are an explicit outcome.
    - A [dict] that is iterated is an association list in insertion
      order; a [dict] that is only looked up is a [gmap]; a [set] is a
      [gset].
    - What the interpreter and nltk decide (lower-casing, the character
      classes of [re], stripping, tokens, lemmas, the order of a set) is
      a parameter of the development; a database is what its attempts
      to write and to read do. *)

From Stdlib Require Import ZArith Lia Ascii String.
From Stdlib Require Import Floats.SpecFloat.
From stdpp Require Import gmap strings list fin_maps sorting.

Local Open Scope Z_scope.

(** ** Floats *)

Module Float.

Definition prec : Z := 53.
Definition emax : Z := 1024.

(** An [int] used as an operand of [/]: the integer itself, as an
    unrounded mantissa with exponent 0. *)
Definition int_operand (z : Z) : spec_float :=
  match z with
  | Z0 => S754_zero false
  | Zpos p => S754_finite false p 0
  | Zneg p => S754_finite true p 0
  end.

(** [float(z)]: the nearest double. *)
Definition of_int (z : Z) : spec_float := binary_normalize prec emax z 0 false.

(** [a / b] on two [int]s, [b <> 0]: the correctly rounded quotient. *)
Definition int_true_div (a b : Z) : spec_float :=
  SFdiv prec emax (int_operand a) (int_operand b).

Definition mul : spec_float -> spec_float -> spec_float := SFmul prec emax.

(** [x < y]. *)
Definition ltb : spec_float -> spec_float -> bool := SFltb.
(** [x <= y]. *)
Definition leb : spec_float -> spec_float -> bool := SFleb.
(** [x == y]. *)
Definition eqb : spec_float -> spec_float -> bool := SFeqb.

(** Nearest integer to [n / d] for [d > 0], ties to the even one. *)
Definition div_half_even (n d : Z) : Z :=
  let q := n / d in
  let r := n mod d in
  match 2 * r ?= d with
  | Lt => q
  | Gt => q + 1
  | Eq => if Z.even q then q else q + 1
  end.

(** The decimal [k * 10^-ndigits] that is nearest to the exact value
    of [m * 2^e] (ties to even): what [dtoa] in mode 3 produces. *)
Definition nearest_decimal (m : positive) (e : Z) (ndigits : nat) : Z :=
  let p := 10 ^ Z.of_nat ndigits in
  match e with
  | Zneg sh => div_half_even (Zpos m * p) (2 ^ Zpos sh)
  | _ => Zpos m * p * 2 ^ e
  end.

(** The double nearest to [k * 10^-ndigits], [k > 0]: what [strtod]
    gives back. *)
Definition decimal (s : bool) (k : positive) (ndigits : nat) : spec_float :=
  SFdiv prec emax (S754_finite s k 0) (int_operand (10 ^ Z.of_nat ndigits)).

(** [round(x, ndigits)] for [ndigits >= 0]: infinities and NaN round
    to themselves, a finite [x] goes through its correctly rounded
    decimal string and back. *)
Definition round (x : spec_float) (ndigits : nat) : spec_float :=
  match x with
  | S754_finite s m e =>
      match nearest_decimal m e ndigits with
      | Zpos k => decimal s k ndigits
      | _ => S754_zero s
      end
  | _ => x
  end.

(** Float literals that the statements below mention. *)
Definition zero : spec_float := S754_zero false.
Definition one : spec_float := Eval vm_compute in of_int 1.
Definition fifty : spec_float := Eval vm_compute in of_int 50.
Definition hundred : spec_float := Eval vm_compute in of_int 100.

Definition is_nan (x : spec_float) : bool :=
  match x with
  | S754_nan => true
  | _ => false
  end.

(** [below x b eb]: [x] is [0.0] or a positive finite number whose
    value is at most [b * 2^eb]. *)
Definition below (x : spec_float) (b eb : Z) : Prop :=
  match x with
  | S754_zero false => True
  | S754_finite false m e => e <= eb /\ Zpos m <= b * 2 ^ (eb - e)
  | _ => False
  end.

(** What a bound [b * 2^eb] needs for rounding to respect it: it is a
    multiple of the unit in its own binade, and it is not too large. *)
Definition bound_ok (b eb : Z) : Prop :=
  0 < b /\ fexp prec emax (Zdigits2 b + eb) <= eb /\ eb <= emax - prec.

(** The value [k / 10] as a double, for an [int] [k >= 0]. *)
Definition tenths (k : Z) : spec_float :=
  match k with
  | Zpos p => decimal false p 1
  | _ => zero
  end.

End Float.

(** ** Python runtime: exceptions, globals, the monad of a call *)

Inductive exn : Set :=
| KeyError
| ValueError
| ZeroDivisionError
| OverflowError.

Inductive outcome (A : Type) : Type :=
| Normal (a : A)
| Raised (e : exn).
Arguments Normal {A} a.
Arguments Raised {A} e.

(** A field of a disease-info dictionary. *)
Inductive info_value : Type :=
| InfoText (s : string)
| InfoList (l : list string).

(** The module-level names of [data/symptoms.py], [data/diseases.py]
    and [utils.py] that the functions read. *)
Record globals : Type := Globals {
  all_symptoms : list string;
  symptom_synonyms : gmap string (list string);
  symptom_disease_map : gmap string (list string);
  diseases_data : gmap string (gmap string info_value);
  stop_words : gset string
}.

Definition Py (A : Type) : Type := globals -> outcome A * globals.

#[export] Instance Py_ret : MRet Py := fun A a g => (Normal a, g).
#[export] Instance Py_bind : MBind Py := fun A B k m g =>
  match m g with
  | (Normal a, g') => k a g'
  | (Raised e, g') => (Raised e, g')
  end.

Definition raise {A : Type} (e : exn) : Py A := fun g => (Raised e, g).
(** Read a module-level name. *)
Definition global {A : Type} (name : globals -> A) : Py A := fun g => (Normal (name g), g).

(** [for x in xs: s = body(x, s)] *)
Fixpoint for_in {A S : Type} (xs : list A) (body : A -> S -> Py S) (s : S) : Py S :=
  match xs with
  | [] => mret s
  | x :: xs' => s' ← body x s; for_in xs' body s'
  end.

(** The same loop when the body may [break]. *)
Inductive flow (S : Type) : Type :=
| Continue (s : S)
| Break (s : S).
Arguments Continue {S} s.
Arguments Break {S} s.

Fixpoint for_in_break {A S : Type} (xs : list A) (body : A -> S -> Py (flow S)) (s : S) : Py S :=
  match xs with
  | [] => mret s
  | x :: xs' =>
      r ← body x s;
      match r with
      | Continue s' => for_in_break xs' body s'
      | Break s' => mret s'
      end
  end.

(** *** A local [dict] from [str] to [int], in insertion order *)

Module Dict.

Definition t : Type := list (string * Z).

Definition empty : t := [].

(** [k in d] *)
Fixpoint contains (d : t) (k : string) : bool :=
  match d with
  | [] => false
  | (k', _) :: d' => if String.eqb k' k then true else contains d' k
  end.

Fixpoint lookup (d : t) (k : string) : option Z :=
  match d with
  | [] => None
  | (k', v) :: d' => if String.eqb k' k then Some v else lookup d' k
  end.

(** [d[k]] *)
Definition getitem (d : t) (k : string) : Py Z :=
  match lookup d k with
  | Some v => mret v
  | None => raise KeyError
  end.

(** [d[k] = v]: an existing key keeps its place, a new key goes last. *)
Fixpoint setitem (d : t) (k : string) (v : Z) : t :=
  match d with
  | [] => [(k, v)]
  | (k', v') :: d' =>
      if String.eqb k' k then (k', v) :: d' else (k', v') :: setitem d' k v
  end.

Definition values (d : t) : list Z := map snd d.
Definition items (d : t) : list (string * Z) := d.

End Dict.

(** [max(xs)] *)
Definition py_max (xs : list Z) : Py Z :=
  match xs with
  | [] => raise ValueError
  | x :: xs' => mret (fold_left Z.max xs' x)
  end.

(** [a / b] on [int]s *)
Definition truediv (a b : Z) : Py spec_float :=
  if b =? 0 then raise ZeroDivisionError
  else
    match Float.int_true_div a b with
    | S754_infinity _ => raise OverflowError
    | q => mret q
    end.

(** [l[:stop]] *)
Definition slice_to {A : Type} (l : list A) (stop : Z) : list A :=
  if stop <? 0
  then take (Z.to_nat (Z.max 0 (Z.of_nat (length l) + stop))) l
  else take (Z.to_nat stop) l.

(** [l.sort(key=lambda x: x[1], reverse=True)]: the stable sort on the
    second component, largest first, that compares keys with [<] only. *)
Fixpoint insert_desc (x : string * spec_float) (l : list (string * spec_float))
  : list (string * spec_float) :=
  match l with
  | [] => [x]
  | y :: l' => if Float.ltb (snd x) (snd y) then y :: insert_desc x l' else x :: l
  end.

Definition sort_key1_reverse (l : list (string * spec_float)) : list (string * spec_float) :=
  foldr insert_desc [] l.

(** ** predictor.py *)

Definition predict_disease (symptoms : list string) (top_n : Z)
  : Py (list (string * spec_float)) :=
  disease_score ← for_in symptoms (fun symptom disease_score =>
    table ← global symptom_disease_map;
    match table !! symptom with
    | Some diseases =>
        for_in diseases (fun disease disease_score =>
          let disease_score :=
            if Dict.contains disease_score disease then disease_score
            else Dict.setitem disease_score disease 0 in
          score ← Dict.getitem disease_score disease;
          mret (Dict.setitem disease_score disease (score + 1))) disease_score
    | None => mret disease_score
    end) Dict.empty;
  match disease_score with
  | [] => mret []
  | _ =>
      max_score ← py_max (Dict.values disease_score);
      results ← mapM (fun '(disease, score) =>
                   q ← truediv score max_score;
                   mret (disease, Float.round (Float.mul q (Float.of_int 100)) 1))
                 (Dict.items disease_score);
      mret (slice_to (sort_key1_reverse results) top_n)
  end.

(** [top_n] defaults to 3. *)
Definition predict_disease_default (symptoms : list string) : Py (list (string * spec_float)) :=
  predict_disease symptoms 3.

(** ** Strings *)

Module Str.

(** [sep.join(l)] *)
Definition join (sep : string) (l : list string) : string := String.concat sep l.

(** A non-empty string is true. *)
Definition truthy (s : string) : bool :=
  match s with
  | EmptyString => false
  | String _ _ => true
  end.

End Str.

(** [range(a, b)] *)
Definition range (a b : nat) : list nat := seq a (b - a).

(** [l[i:j]] for [0 <= i], [0 <= j] *)
Definition slice {A : Type} (l : list A) (i j : nat) : list A := take (j - i) (drop i l).

(** ** What the interpreter and nltk supply

    [str.lower], [str.strip] and the classes [\w] and [\s] of [re]
    follow the Unicode tables of the interpreter: lower-casing can
    change the length of a text, and white space is more than the ASCII
    blanks. [nltk.word_tokenize] and [WordNetLemmatizer.lemmatize] are
    library code; the order in which a [set] of strings is listed
    depends on the hash seed of the process. All of them are taken as
    given, and a [string] stands for a Python [str] through its UTF-8
    bytes. *)
Class Platform : Type := {
  (** [s.lower()] *)
  str_lower : string -> string;
  (** [s.strip()] *)
  str_strip : string -> string;
  (** [re.sub(r'[^\w\s]', ' ', s)] *)
  re_sub_punctuation : string -> string;
  word_tokenize : string -> list string;
  lemmatize : string -> string;
  set_to_list : gset string -> list string;
  set_to_list_perm : forall s : gset string, set_to_list s ≡ₚ elements s
}.

(** *** A platform for texts of ASCII characters

    An instance to run the functions on. On a text of ASCII characters
    [str.lower] touches the letters A to Z, [\w] is a letter, a digit
    or the underscore, and white space is one of the ten ASCII blanks;
    on other texts the interpreter does more, which is why the general
    statements are about every platform and only the examples use this
    one. *)
Module Plain.

Definition lower_char (c : ascii) : ascii :=
  let n := N_of_ascii c in
  if ((65 <=? n) && (n <=? 90))%N then ascii_of_N (n + 32) else c.

Fixpoint lower (s : string) : string :=
  match s with
  | EmptyString => EmptyString
  | String c s' => String (lower_char c) (lower s')
  end.

(** Tab, line feed, vertical tab, form feed, carriage return, the four
    separators 28-31 and the space. *)
Definition is_space (c : ascii) : bool :=
  let n := N_of_ascii c in
  (((9 <=? n) && (n <=? 13)) || ((28 <=? n) && (n <=? 32)))%N.

Definition is_word (c : ascii) : bool :=
  let n := N_of_ascii c in
  (((48 <=? n) && (n <=? 57)) || ((65 <=? n) && (n <=? 90)) || (n =? 95)
   || ((97 <=? n) && (n <=? 122)))%N.

Fixpoint strip_punctuation (s : string) : string :=
  match s with
  | EmptyString => EmptyString
  | String c s' =>
      String (if is_word c || is_space c then c else " "%char) (strip_punctuation s')
  end.

(** Splitting on runs of white space: [acc] holds the current word,
    last character first. *)
Definition flush (acc : list ascii) (out : list string) : list string :=
  match acc with
  | [] => out
  | _ => string_of_list_ascii (reverse acc) :: out
  end.

Fixpoint split_go (s : string) (acc : list ascii) : list string :=
  match s with
  | EmptyString => flush acc []
  | String c s' =>
      if is_space c then flush acc (split_go s' [])
      else split_go s' (c :: acc)
  end.

Definition split (s : string) : list string := split_go s [].

Fixpoint lstrip (s : string) : string :=
  match s with
  | EmptyString => EmptyString
  | String c s' => if is_space c then lstrip s' else s
  end.

Fixpoint rstrip (s : string) : string :=
  match s with
  | EmptyString => EmptyString
  | String c s' =>
      match rstrip s' with
      | EmptyString => if is_space c then EmptyString else String c EmptyString
      | t => String c t
      end
  end.

Definition strip (s : string) : string := rstrip (lstrip s).

End Plain.

(** White-space tokens, no lemmatisation, sets listed in the order of
    [elements]. *)
#[export] Instance plain_platform : Platform := {|
  str_lower := Plain.lower;
  str_strip := Plain.strip;
  re_sub_punctuation := Plain.strip_punctuation;
  word_tokenize := Plain.split;
  lemmatize := fun w => w;
  set_to_list := elements;
  set_to_list_perm := fun s => reflexivity (elements s)
|}.

(** ** utils.py *)

Section Utils.

Context {platform : Platform}.

(** [word == symptom.lower() or word in symptom_synonyms.get(symptom, [])] *)
Definition matches (phrase symptom : string) : Py bool :=
  synonyms ← global symptom_synonyms;
  mret (String.eqb phrase (str_lower symptom)
        || bool_decide (phrase ∈ default [] (synonyms !! symptom))).

(** The loop over [all_symptoms] that both passes run for a word or a
    phrase: add the first symptom that matches, then [break]. *)
Definition match_vocabulary (phrase : string) (recognized_symptoms : gset string)
  : Py (gset string) :=
  vocabulary ← global all_symptoms;
  for_in_break vocabulary (fun symptom recognized_symptoms =>
    hit ← matches phrase symptom;
    if (hit : bool)
    then mret (Break ({[symptom]} ∪ recognized_symptoms))
    else mret (Continue recognized_symptoms)) recognized_symptoms.

(** The tokens the two passes work on. *)
Definition tokens (text : string) : Py (list string) :=
  let text := str_lower text in
  let text := re_sub_punctuation text in
  let words := word_tokenize text in
  stop ← global stop_words;
  mret (map lemmatize (filter (fun word => word ∉ stop) words)).

Definition extract_symptoms_from_text (text : string) : Py (gset string) :=
  words ← tokens text;
  (* single word symptoms *)
  recognized_symptoms ← for_in words match_vocabulary ∅;
  (* multi-word symptoms *)
  for_in (range 0 (length words)) (fun i recognized_symptoms =>
    for_in (range (i + 1) (Nat.min (i + 5) (length words + 1)))
      (fun j recognized_symptoms =>
         let phrase := Str.join " " (slice words i j) in
         match_vocabulary phrase recognized_symptoms)
      recognized_symptoms)
    recognized_symptoms.

Definition preprocess_symptoms (selected_symptoms : list string)
    (additional_symptoms_text : string) : Py (list string) :=
  let processed_symptoms : gset string := list_to_set selected_symptoms in
  processed_symptoms ←
    (if Str.truthy additional_symptoms_text
     then text_symptoms ← extract_symptoms_from_text additional_symptoms_text;
          mret (processed_symptoms ∪ text_symptoms)
     else mret processed_symptoms);
  mret (set_to_list processed_symptoms).

(** [diseases_data.get(disease_name, None)]; Python's [None] is [None]. *)
Definition get_disease_info (disease_name : string)
  : Py (option (gmap string info_value)) :=
  data ← global diseases_data;
  mret (data !! disease_name).

End Utils.

(** ** The loops read as functions

    Each loop of the two files computes a value that the lemmas of the
    second part name with the following functions. *)

(** The diseases in the order in which the nested loops of
    [predict_disease] meet them, with repetitions. *)
Definition associations (g : globals) (symptoms : list string) : list string :=
  flat_map (fun symptom => default [] (symptom_disease_map g !! symptom)) symptoms.

(** One pass through the body of the inner loop. *)
Definition bump (disease_score : Dict.t) (disease : string) : Dict.t :=
  match Dict.lookup disease_score disease with
  | Some score => Dict.setitem disease_score disease (score + 1)
  | None => Dict.setitem disease_score disease 1
  end.

Definition tally (stream : list string) : Dict.t := fold_left bump stream Dict.empty.

(** Occurrences of [k] in [l]. *)
Definition occurrences (k : string) (l : list string) : Z :=
  Z.of_nat (length (filter (fun d => d = k) l)).

(** The raw score of a disease: how many times the loops meet it. *)
Definition raw_score (g : globals) (symptoms : list string) (disease : string) : Z :=
  occurrences disease (associations g symptoms).

Definition max_of (xs : list Z) : Z :=
  match xs with
  | [] => 0
  | x :: xs' => fold_left Z.max xs' x
  end.

(** [round((score / max_score) * 100, 1)] *)
Definition probability (max_score score : Z) : spec_float :=
  Float.round (Float.mul (Float.int_true_div score max_score) (Float.of_int 100)) 1.

(** [results] after the sort, before the slice. *)
Definition ranking (g : globals) (symptoms : list string) : list (string * spec_float) :=
  let disease_score := tally (associations g symptoms) in
  let max_score := max_of (Dict.values disease_score) in
  sort_key1_reverse
    (map (fun '(disease, score) => (disease, probability max_score score)) disease_score).

(** *** utils.py *)

Section Reading.

Context {platform : Platform}.

(** The test that [matches] performs. *)
Definition matching (g : globals) (phrase symptom : string) : bool :=
  String.eqb phrase (str_lower symptom)
  || bool_decide (phrase ∈ default [] (symptom_synonyms g !! symptom)).

(** The first symptom of the vocabulary that a phrase matches. *)
Definition first_match (g : globals) (phrase : string) : option string :=
  List.find (matching g phrase) (all_symptoms g).

(** One run of the loop over the vocabulary. *)
Definition add_match (g : globals) (recognized : gset string) (phrase : string) : gset string :=
  match first_match g phrase with
  | Some symptom => {[symptom]} ∪ recognized
  | None => recognized
  end.

(** The filtered, lemmatised tokens of a text. *)
Definition words_of (g : globals) (text : string) : list string :=
  map lemmatize
      (filter (fun word => word ∉ stop_words g)
              (word_tokenize (re_sub_punctuation (str_lower text)))).

(** The phrases of the second pass, in the order in which it tests
    them. *)
Definition phrases (words : list string) : list string :=
  flat_map (fun i =>
              map (fun j => Str.join " " (slice words i j))
                  (range (i + 1) (Nat.min (i + 5) (length words + 1))))
           (range 0 (length words)).

(** What [extract_symptoms_from_text] recognizes in a token sequence. *)
Definition recognized (g : globals) (words : list string) : gset string :=
  fold_left (add_match g) (words ++ phrases words) ∅.

(** [p] is the join of [n] consecutive tokens of [words]. *)
Definition window (words : list string) (n : nat) (p : string) : Prop :=
  exists i, (i + n <= length words)%nat /\ p = Str.join " " (take n (drop i words)).

End Reading.

(** *** The matching passes as the specification words them

    Steps d to f of section 4.1: a single-word pass over the tokens
    that tests equality, case-insensitive, against every canonical
    symptom name or any of its registered synonyms and keeps the first
    match; a multi-word pass over every contiguous window of 2 to 4
    tokens joined with single spaces and tested the same way; and the
    union of the two. *)

Module Spec.

Section Test.

Context {platform : Platform}.

(** Equal without regard to case: equal once lower-cased. *)
Definition equal_ignoring_case (a b : string) : bool :=
  String.eqb (str_lower a) (str_lower b).

(** The test of steps d and e: the phrase is, case-insensitively, the
    canonical name or one of the registered synonyms. *)
Definition matching (g : globals) (phrase symptom : string) : bool :=
  equal_ignoring_case phrase symptom
  || existsb (equal_ignoring_case phrase) (default [] (symptom_synonyms g !! symptom)).

End Test.

(** Testing one word or phrase with [test]: the first symptom of the
    vocabulary that matches, if any. *)
Definition match_phrase (test : string -> string -> bool) (vocabulary : list string)
    (phrase : string) : gset string :=
  match List.find (test phrase) vocabulary with
  | Some symptom => {[symptom]}
  | None => ∅
  end.

(** The contiguous windows of [n] tokens, joined with single spaces. *)
Definition windows_of_size (words : list string) (n : nat) : list string :=
  map (fun i => Str.join " " (take n (drop i words))) (seq 0 (length words + 1 - n)).

Definition single_word (test : string -> string -> bool) (vocabulary words : list string)
  : gset string :=
  ⋃ (map (match_phrase test vocabulary) words).

Definition multi_word (test : string -> string -> bool) (vocabulary words : list string)
  : gset string :=
  ⋃ (map (fun n => ⋃ (map (match_phrase test vocabulary) (windows_of_size words n)))
         [2; 3; 4]%nat).

(** The two passes and their union, for a given test. *)
Definition recognize_with (test : string -> string -> bool) (vocabulary words : list string)
  : gset string :=
  single_word test vocabulary words ∪ multi_word test vocabulary words.

(** The algorithm of the specification. *)
Definition recognize {platform : Platform} (g : globals) (words : list string) : gset string :=
  recognize_with (matching g) (all_symptoms g) words.

End Spec.

(** What [preprocess_symptoms] collects before it lists it. *)
Definition processed {platform : Platform} (g : globals) (selected_symptoms : list string)
    (additional_symptoms_text : string) : gset string :=
  if Str.truthy additional_symptoms_text
  then list_to_set selected_symptoms ∪ recognized g (words_of g additional_symptoms_text)
  else list_to_set selected_symptoms.

(** Example tables for the text matching. *)
Definition nose_globals : globals :=
  {| all_symptoms := ["fever"; "Headache"; "rhinorrhea"];
     symptom_synonyms := list_to_map [("rhinorrhea", ["runny nose"])];
     symptom_disease_map := ∅;
     diseases_data := ∅;
     stop_words := list_to_set ["i"; "have"; "a"; "and"; "the"; "in"] |}%string.

(** The same tables with the synonym stored with capitals. *)
Definition capital_globals : globals :=
  {| all_symptoms := ["fever"; "Headache"; "rhinorrhea"];
     symptom_synonyms := list_to_map [("rhinorrhea", ["Runny Nose"])];
     symptom_disease_map := ∅;
     diseases_data := ∅;
     stop_words := list_to_set ["i"; "have"; "a"; "and"; "the"; "in"] |}%string.

(** A disease-info table with one entry. *)
Definition info_globals : globals :=
  {| all_symptoms := [];
     symptom_synonyms := ∅;
     symptom_disease_map := ∅;
     diseases_data :=
       {[ "flu" := {[ "description" := InfoText "a viral infection";
                      "precautions" := InfoList ["rest"; "fluids"] ]} ]};
     stop_words := ∅ |}%string.

(** Every character of a string passes a test. *)
Fixpoint all_chars (test : ascii -> bool) (s : string) : bool :=
  match s with
  | EmptyString => true
  | String c s' => test c && all_chars test s'
  end.

(** A platform that lists sets in the reverse order. *)
Definition reversed_platform : Platform :=
  {| str_lower := Plain.lower;
     str_strip := Plain.strip;
     re_sub_punctuation := Plain.strip_punctuation;
     word_tokenize := Plain.split;
     lemmatize := fun w => w;
     set_to_list := fun s => reverse (elements s);
     set_to_list_perm := fun s => reverse_Permutation (elements s) |}.

(** [x] comes before [y] in [l]. *)
Definition before {A : Type} (x y : A) (l : list A) : Prop :=
  exists l1 l2 l3, l = l1 ++ x :: l2 ++ y :: l3.

(** [a] ranks at least as high as [b]. *)
Definition geq (a b : string * spec_float) : Prop := Float.leb (snd b) (snd a) = true.

(** Non-increasing second components: every entry ranks at least as
    high as every later one. *)
Definition descending (l : list (string * spec_float)) : Prop := StronglySorted geq l.

(** The largest raw score among the diseases met. *)
Definition max_score (g : globals) (symptoms : list string) : Z :=
  max_of (map (raw_score g symptoms) (associations g symptoms)).

(** The association table of the worked example, with the two disease
    collections listed in a given order. *)
Definition example_table (fever_diseases cough_diseases : list string) : globals :=
  {| all_symptoms := ["fever"; "cough"];
     symptom_synonyms := ∅;
     symptom_disease_map :=
       list_to_map [("fever", fever_diseases); ("cough", cough_diseases)];
     diseases_data := ∅;
     stop_words := ∅ |}%string.

Definition example_globals : globals :=
  example_table ["flu"; "malaria"]%string ["flu"; "cold"]%string.

(** A two-element collection listed in one order or the other. *)
Definition listed (swap : bool) (a b : string) : list string :=
  if swap then [b; a] else [a; b].

(** At the first occurrence of [d1] in [stream], [d2] has not occurred. *)
Definition met_first (d1 d2 : string) (stream : list string) : Prop :=
  exists l1 l2, stream = l1 ++ d1 :: l2 /\ (d1 ∉ l1) /\ (d2 ∉ l1) /\ d1 <> d2.

(** A call that returns [a] and leaves the globals as they were. *)
Definition returns {A : Type} (m : Py A) (g : globals) (a : A) : Prop :=
  m g = (Normal a, g).

(** ** app.py

    The routes, with what Flask and the database layer do taken as
    given: the form fields are arguments, [flash] appends to a list,
    [session] has its two keys, a redirect or a rendered template is the
    response, and the database is the list of stored diagnoses, each
    with its result rows. What the database does at each attempt to
    write or to read comes from a [Storage]. [time.sleep] and the log
    are left out. *)

Module App.

(** One entry of [results] in [diagnose]. *)
Record result : Type := Result {
  disease : string;
  probability : spec_float;
  info : gmap string info_value
}.

(** A [DiagnosisResult] row; also an entry of [formatted_results]. *)
Record result_row : Type := ResultRow {
  row_disease : string;
  row_probability : spec_float;
  row_description : option info_value;
  row_precautions : option info_value;
  row_diet : option info_value;
  row_workout : option info_value;
  row_medication : option info_value
}.

(** A [Diagnosis] row with the rows of its [results] relationship. *)
Record diagnosis_row : Type := DiagnosisRow {
  row_id : Z;
  row_created_at : Z;
  row_symptoms : list string;
  row_results : list result_row
}.

(** An entry of [history_items]. *)
Record history_item : Type := HistoryItem {
  item_id : Z;
  item_date : Z;
  item_symptoms : list string;
  item_top_disease : string;
  item_probability : spec_float
}.

Inductive endpoint : Set :=
| Index
| History.

Inductive response : Type :=
| Redirect (target : endpoint)
| RenderResults (results : list result)
| RenderStoredResults (results : list result_row)
| RenderHistory (history_items : list history_item).

(** What one pass through the [try] block of the save loop meets. The
    whole block goes through: the commit, with the id and the time stamp
    the database gives the diagnosis, and the statements after it. Or a
    statement before the end of the commit raises, so that nothing is
    stored, and the rollback of the handler works or raises too. Or the
    commit goes through and a statement after it raises ([diagnosis.id]
    is read again from the database once the commit has expired it),
    before the id reaches the session and before [saved_to_db] is set;
    the row stays stored, and the rollback works or raises. *)
Inductive save_event : Set :=
| Commits (id created_at : Z)
| RaisesThenRollsBack
| RaisesAndRollbackRaises
| CommitsThenRaises (id created_at : Z)
| CommitsThenRaisesAndRollbackRaises (id created_at : Z).

(** The rollback of the handler raises. *)
Definition rollback_raises (e : save_event) : bool :=
  match e with
  | RaisesAndRollbackRaises | CommitsThenRaisesAndRollbackRaises _ _ => true
  | _ => false
  end.

(** A statement after the commit raises. *)
Definition raises_after_commit (e : save_event) : bool :=
  match e with
  | CommitsThenRaises _ _ | CommitsThenRaisesAndRollbackRaises _ _ => true
  | _ => false
  end.

Inductive error : Set :=
| CoreError (e : exn)
| DatabaseError
| NotFound.

Inductive outcome (A : Type) : Type :=
| Ok (a : A)
| Error (e : error).
Arguments Ok {A} a.
Arguments Error {A} e.

Class Storage : Type := {
  (** the event of the [k]-th save attempt *)
  save_event_at : nat -> save_event;
  (** whether the queries of the [k]-th read attempt go through *)
  read_succeeds_at : nat -> bool;
  (** [order_by(DiagnosisResult.probability.desc())] *)
  by_probability : list result_row -> list result_row;
  by_probability_perm : forall rows, by_probability rows ≡ₚ rows;
  (** [order_by(Diagnosis.created_at.desc())] *)
  newest_first : list diagnosis_row -> list diagnosis_row;
  newest_first_perm : forall rows, newest_first rows ≡ₚ rows
}.

Record state : Type := State {
  tables : globals;
  session_diagnosis_results : option (list result);
  session_diagnosis_id : option Z;
  flashes : list (string * string);
  database : list diagnosis_row;
  save_attempts : nat;
  read_attempts : nat
}.

Definition M (A : Type) : Type := state -> outcome A * state.

#[export] Instance M_ret : MRet M := fun A a st => (Ok a, st).
#[export] Instance M_bind : MBind M := fun A B k m st =>
  match m st with
  | (Ok a, st') => k a st'
  | (Error e, st') => (Error e, st')
  end.

Definition throw {A : Type} (e : error) : M A := fun st => (Error e, st).

(** A call into [utils.py] or [predictor.py]. *)
Definition call {A : Type} (m : Py A) : M A := fun st =>
  let '(o, g) := m (tables st) in
  let st' := State g (session_diagnosis_results st) (session_diagnosis_id st)
                   (flashes st) (database st) (save_attempts st) (read_attempts st) in
  match o with
  | Normal a => (Ok a, st')
  | Raised e => (Error (CoreError e), st')
  end.

(** [flash(message, category)] *)
Definition flash (message category : string) : M unit := fun st =>
  (Ok tt, State (tables st) (session_diagnosis_results st) (session_diagnosis_id st)
                (flashes st ++ [(message, category)]) (database st)
                (save_attempts st) (read_attempts st)).

(** [session['diagnosis_results'] = results] *)
Definition set_session_results (results : list result) : M unit := fun st =>
  (Ok tt, State (tables st) (Some results) (session_diagnosis_id st)
                (flashes st) (database st) (save_attempts st) (read_attempts st)).

(** [session['diagnosis_id'] = id] *)
Definition set_session_id (id : Z) : M unit := fun st =>
  (Ok tt, State (tables st) (session_diagnosis_results st) (Some id)
                (flashes st) (database st) (save_attempts st) (read_attempts st)).

(** [try: body except Exception: handler] around a whole route. *)
Definition try_except (body : M response) (handler : M response) : state -> response * state :=
  fun st =>
    match body st with
    | (Ok r, st') => (r, st')
    | (Error _, st') =>
        match handler st' with
        | (Ok r, st'') => (r, st'')
        | (Error _, st'') => (Redirect Index, st'')
        end
    end.

(** [if d:] on an optional dictionary: [None] and [{}] are false. *)
Definition truthy_info (d : option (gmap string info_value)) : bool :=
  match d with
  | Some i => negb (bool_decide (i = ∅))
  | None => false
  end.

(** The row that [diagnose] stores for one entry of [results]. *)
Definition row_of_result (r : result) : result_row :=
  {| row_disease := disease r;
     row_probability := probability r;
     row_description := info r !! "description"%string;
     row_precautions := info r !! "precautions"%string;
     row_diet := info r !! "diet"%string;
     row_workout := info r !! "workout"%string;
     row_medication := info r !! "medication"%string |}.

Section Routes.

Context {platform : Platform} {storage : Storage}.

(** The loop that builds [results]; [results] starts empty. *)
Fixpoint build_results_from (results : list result)
    (predicted_diseases : list (string * spec_float)) : M (list result) :=
  match predicted_diseases with
  | [] => mret results
  | (disease, probability) :: rest =>
      disease_info ← call (get_disease_info disease);
      if truthy_info disease_info
      then build_results_from
             (results ++ [Result disease probability (default ∅ disease_info)]) rest
      else build_results_from results rest
  end.

Definition build_results (predicted_diseases : list (string * spec_float)) : M (list result) :=
  build_results_from [] predicted_diseases.

(** One pass through the [try] block that saves the diagnosis. *)
Definition save_once (processed_symptoms : list string) (results : list result)
  : M (option Z) := fun st =>
  let unchanged :=
    State (tables st) (session_diagnosis_results st) (session_diagnosis_id st)
          (flashes st) (database st) (S (save_attempts st)) (read_attempts st) in
  let stored id created_at :=
    State (tables st) (session_diagnosis_results st) (session_diagnosis_id st)
          (flashes st)
          (database st ++ [DiagnosisRow id created_at processed_symptoms
                                        (map row_of_result results)])
          (S (save_attempts st)) (read_attempts st) in
  match save_event_at (save_attempts st) with
  | Commits id created_at => (Ok (Some id), stored id created_at)
  | RaisesThenRollsBack => (Ok None, unchanged)
  | RaisesAndRollbackRaises => (Error DatabaseError, unchanged)
  | CommitsThenRaises id created_at => (Ok None, stored id created_at)
  | CommitsThenRaisesAndRollbackRaises id created_at =>
      (Error DatabaseError, stored id created_at)
  end.

(** [while retry_count < max_retry and not saved_to_db], with
    [remaining = max_retry - retry_count]. *)
Fixpoint save_loop (remaining : nat) (processed_symptoms : list string)
    (results : list result) : M unit :=
  match remaining with
  | O => mret tt
  | S remaining' =>
      saved ← save_once processed_symptoms results;
      match saved with
      | Some id => set_session_id id
      | None => save_loop remaining' processed_symptoms results
      end
  end.

Definition diagnose_body (user_symptoms : list string) (additional_symptoms : string)
  : M response :=
  match user_symptoms, str_strip additional_symptoms with
  | [], EmptyString =>
      _ ← flash "Please select at least one symptom for diagnosis" "warning";
      mret (Redirect Index)
  | _, _ =>
      processed_symptoms ← call (preprocess_symptoms user_symptoms additional_symptoms);
      match processed_symptoms with
      | [] =>
          _ ← flash "No valid symptoms were found. Please try again." "warning";
          mret (Redirect Index)
      | _ =>
          predicted_diseases ← call (predict_disease_default processed_symptoms);
          match predicted_diseases with
          | [] =>
              _ ← flash "Unable to determine a diagnosis based on provided symptoms. Please consult a medical professional." "info";
              mret (Redirect Index)
          | _ =>
              results ← build_results predicted_diseases;
              _ ← set_session_results results;
              _ ← save_loop 3 processed_symptoms results;
              mret (RenderResults results)
          end
      end
  end.

Definition diagnose (user_symptoms : list string) (additional_symptoms : string)
  : state -> response * state :=
  try_except
    (diagnose_body user_symptoms additional_symptoms)
    (_ ← flash "An error occurred while processing your symptoms. Please try again." "danger";
     mret (Redirect Index)).

(** One pass through a [try] block that reads: the queries go through
    or raise. *)
Definition read_once {A : Type} (query : list diagnosis_row -> outcome A) : M A := fun st =>
  let st' := State (tables st) (session_diagnosis_results st) (session_diagnosis_id st)
                   (flashes st) (database st) (save_attempts st) (S (read_attempts st)) in
  if read_succeeds_at (read_attempts st)
  then (query (database st), st')
  else (Error DatabaseError, st').

(** [while retry_count < max_retry: try: return page() except Exception:
    retry_count += 1; if retry_count >= max_retry: flash; return
    redirect], with [remaining = max_retry - retry_count]. *)
Fixpoint read_loop (remaining : nat) (page : M response) (message : string)
    (target : endpoint) : state -> response * state :=
  match remaining with
  | O => fun st => (Redirect target, st)
  | S remaining' => fun st =>
      match page st with
      | (Ok r, st') => (r, st')
      | (Error _, st') =>
          match remaining' with
          | O =>
              match flash message "danger" st' with
              | (_, st'') => (Redirect target, st'')
              end
          | S _ => read_loop remaining' page message target st'
          end
      end
  end.

(** [Diagnosis.query.get_or_404(diagnosis_id)] *)
Definition get_or_404 (rows : list diagnosis_row) (diagnosis_id : Z) : outcome diagnosis_row :=
  match List.find (fun row => row_id row =? diagnosis_id) rows with
  | Some row => Ok row
  | None => Error NotFound
  end.

Definition history : state -> response * state :=
  read_loop 3
    (rows ← read_once (fun rows => Ok (newest_first rows));
     mret (RenderHistory
             (omap (fun diagnosis =>
                      match by_probability (row_results diagnosis) with
                      | top_result :: _ =>
                          Some (HistoryItem (row_id diagnosis) (row_created_at diagnosis)
                                            (row_symptoms diagnosis)
                                            (row_disease top_result)
                                            (row_probability top_result))
                      | [] => None
                      end) rows)))
    "An error occurred while retrieving your diagnosis history." Index.

Definition diagnosis_detail (diagnosis_id : Z) : state -> response * state :=
  read_loop 3
    (results ← read_once (fun rows =>
                 match get_or_404 rows diagnosis_id with
                 | Ok diagnosis => Ok (by_probability (row_results diagnosis))
                 | Error e => Error e
                 end);
     mret (RenderStoredResults results))
    "An error occurred while retrieving diagnosis details." History.

End Routes.

End App.

(** A storage to run the routes on: the first save attempt fails, the
    second commits; reads go through from the second attempt on; rows
    come back in stored order. *)
#[export] Instance plain_storage : App.Storage := {|
  App.save_event_at := fun k =>
    match k with
    | O => App.RaisesThenRollsBack
    | _ => App.Commits (Z.of_nat k) 1000
    end;
  App.read_succeeds_at := fun k => match k with O => false | _ => true end;
  App.by_probability := fun rows => rows;
  App.by_probability_perm := fun rows => reflexivity rows;
  App.newest_first := fun rows => rows;
  App.newest_first_perm := fun rows => reflexivity rows
|}.

(** A storage whose first commit is followed by a raise: the first
    attempt stores the diagnosis and fails, the second stores it again. *)
Definition repeating_storage : App.Storage := {|
  App.save_event_at := fun k =>
    match k with
    | O => App.CommitsThenRaises 1 1000
    | _ => App.Commits (Z.of_nat (S k)) 1000
    end;
  App.read_succeeds_at := fun _ => true;
  App.by_probability := fun rows => rows;
  App.by_probability_perm := fun rows => reflexivity rows;
  App.newest_first := fun rows => rows;
  App.newest_first_perm := fun rows => reflexivity rows
|}.

(** A storage whose writes and reads always fail. *)
Definition failing_storage : App.Storage := {|
  App.save_event_at := fun _ => App.RaisesThenRollsBack;
  App.read_succeeds_at := fun _ => false;
  App.by_probability := fun rows => rows;
  App.by_probability_perm := fun rows => reflexivity rows;
  App.newest_first := fun rows => rows;
  App.newest_first_perm := fun rows => reflexivity rows
|}.

(** Tables for the routes: the worked example with an info entry for
    flu and an empty one for cold. *)
Definition app_globals : globals :=
  {| all_symptoms := ["fever"; "cough"];
     symptom_synonyms := ∅;
     symptom_disease_map :=
       list_to_map [("fever", ["flu"; "malaria"]); ("cough", ["flu"; "cold"])];
     diseases_data :=
       {[ "flu" := {[ "description" := InfoText "a viral infection" ]};
          "cold" := ∅ ]};
     stop_words := list_to_set ["i"; "have"; "a"; "and"] |}%string.

Definition fresh_state (g : globals) : App.state :=
  {| App.tables := g;
     App.session_diagnosis_results := None;
     App.session_diagnosis_id := None;
     App.flashes := [];
     App.database := [];
     App.save_attempts := 0;
     App.read_attempts := 0 |}.

(** The entry of [results] for one predicted disease, if the disease
    has a non-empty info dictionary. *)
Definition entry_of (g : globals) (prediction : string * spec_float) : option App.result :=
  match diseases_data g !! fst prediction with
  | Some i =>
      if decide (i = ∅) then None
      else Some (App.Result (fst prediction) (snd prediction) i)
  | None => None
  end.

(** The state after a [flash], and after [results] went into the
    session. *)
Definition flashed (message category : string) (st : App.state) : App.state :=
  snd (App.flash message category st).

Definition with_results (results : list App.result) (st : App.state) : App.state :=
  snd (App.set_session_results results st).

(** The state after [k] more read attempts. *)
Definition after_reads (k : nat) (st : App.state) : App.state :=
  App.State (App.tables st) (App.session_diagnosis_results st) (App.session_diagnosis_id st)
            (App.flashes st) (App.database st) (App.save_attempts st)
            (App.read_attempts st + k).

(** The diagnosis has at least one result row. *)
Definition has_results (diagnosis : App.diagnosis_row) : bool :=
  match App.row_results diagnosis with
  | [] => false
  | _ :: _ => true
  end.

(** The history item of a diagnosis whose top result is [top]. *)
Definition item_of (diagnosis : App.diagnosis_row) (top : App.result_row) : App.history_item :=
  App.HistoryItem (App.row_id diagnosis) (App.row_created_at diagnosis)
                  (App.row_symptoms diagnosis) (App.row_disease top) (App.row_probability top).

(** A database to read from: one diagnosis with a result row, one
    without. *)
Definition stored_rows : list App.diagnosis_row :=
  [App.DiagnosisRow 1 1000 ["fever"; "cough"]
     [App.ResultRow "flu" Float.hundred (Some (InfoText "a viral infection"))
        None None None None];
   App.DiagnosisRow 2 1001 ["cough"] []]%string.

Definition stored_state : App.state :=
  {| App.tables := app_globals;
     App.session_diagnosis_results := None;
     App.session_diagnosis_id := None;
     App.flashes := [];
     App.database := stored_rows;
     App.save_attempts := 0;
     App.read_attempts := 0 |}.

(** Two steps that the lemmas on list positions repeat. *)
Ltac assoc_refl :=
  rewrite <- ?app_assoc; simpl; rewrite <- ?app_assoc; simpl; rewrite <- ?app_assoc; reflexivity.

Ltac before_side :=
  first [ right; left; split; [reflexivity|]; rewrite ?elem_of_app, ?elem_of_cons; tauto
        | right; right; split; [reflexivity|]; rewrite ?elem_of_app, ?elem_of_cons; tauto ].

(** * Proofs *)

(** ** Binary64 arithmetic *)

Module FloatFacts.
Import Float.

Lemma digits2_pos_size (p : positive) : digits2_pos p = Pos.size p.
Proof. induction p; simpl; congruence. Qed.

Lemma Zdigits2_bounds (m : Z) :
  0 < m -> 2 ^ (Zdigits2 m - 1) <= m < 2 ^ Zdigits2 m.
Proof.
  destruct m as [|p|p]; try lia. intros _. simpl. rewrite digits2_pos_size.
  pose proof (Pos.size_gt p) as Hgt. pose proof (Pos.size_le p) as Hle.
  split.
  - assert (H : (2 ^ Pos.size p <= p~0)%positive) by exact Hle.
    apply Pos2Z.pos_le_pos in H. rewrite Pos2Z.inj_pow in H.
    replace (Z.pos (Pos.size p)) with (Z.succ (Z.pos (Pos.size p) - 1)) in H by lia.
    rewrite Z.pow_succ_r in H by lia. lia.
  - apply Pos2Z.pos_lt_pos in Hgt. rewrite Pos2Z.inj_pow in Hgt. exact Hgt.
Qed.

Lemma Zdigits2_nonneg (m : Z) : 0 <= Zdigits2 m.
Proof. destruct m; simpl; lia. Qed.

(** A number below [2 ^ k] has at most [k] binary digits. *)
Lemma Zdigits2_le_of_lt (m k : Z) : 0 <= k -> 0 <= m < 2 ^ k -> Zdigits2 m <= k.
Proof.
  intros Hk [H0 Hlt].
  destruct (Z.eq_dec m 0) as [-> |Hne]; [simpl; lia|].
  destruct (Zdigits2_bounds m ltac:(lia)) as [Hlo _].
  destruct (Z_le_gt_dec (Zdigits2 m) k) as [|Hgt]; [assumption|exfalso].
  assert (2 ^ k <= 2 ^ (Zdigits2 m - 1)) by (apply Z.pow_le_mono_r; lia).
  lia.
Qed.

Lemma Zdigits2_scaled (m b k : Z) :
  0 < b -> 0 <= k -> 0 <= m <= b * 2 ^ k -> Zdigits2 m <= Zdigits2 b + k.
Proof.
  intros Hb Hk [H0 Hle].
  destruct (Zdigits2_bounds b Hb) as [_ Hhi].
  pose proof (Zdigits2_nonneg b).
  apply Zdigits2_le_of_lt; [lia|]. split; [lia|].
  rewrite Z.pow_add_r by lia.
  assert (0 < 2 ^ k) by (apply Z.pow_pos_nonneg; lia).
  nia.
Qed.


Lemma shr_1_m (mrs : shr_record) : 0 <= shr_m mrs -> shr_m (shr_1 mrs) = shr_m mrs / 2.
Proof.
  destruct mrs as [m r s]; simpl. intros Hm.
  destruct m as [|[p|p|]|p]; try lia; simpl; try reflexivity.
  - rewrite Pos2Z.inj_xI. apply Z.div_unique with (r := 1); lia.
  - rewrite Pos2Z.inj_xO. apply Z.div_unique with (r := 0); lia.
Qed.

Lemma shr_1_nonneg (mrs : shr_record) : 0 <= shr_m mrs -> 0 <= shr_m (shr_1 mrs).
Proof. intros H. rewrite shr_1_m by assumption. apply Z.div_pos; lia. Qed.

Lemma pow2_xO (p : positive) : 2 ^ Zpos p~0 = 2 ^ Zpos p * 2 ^ Zpos p.
Proof.
  replace (Zpos p~0) with (Zpos p + Zpos p) by lia. apply Z.pow_add_r; lia.
Qed.

Lemma pow2_xI (p : positive) : 2 ^ Zpos p~1 = 2 * (2 ^ Zpos p * 2 ^ Zpos p).
Proof.
  replace (Zpos p~1) with (Z.succ (Zpos p~0)) by lia.
  rewrite Z.pow_succ_r, pow2_xO by lia. reflexivity.
Qed.

Lemma iter_shr_1_m (p : positive) : forall mrs,
  0 <= shr_m mrs ->
  0 <= shr_m (SpecFloat.iter_pos shr_1 p mrs) /\
  shr_m (SpecFloat.iter_pos shr_1 p mrs) = shr_m mrs / 2 ^ Zpos p.
Proof.
  induction p as [p IH|p IH|]; intros mrs Hm; cbn [SpecFloat.iter_pos].
  - pose proof (shr_1_nonneg mrs Hm) as H1.
    destruct (IH _ H1) as [H2 E2]. destruct (IH _ H2) as [H3 E3].
    split; [assumption|]. rewrite E3, E2, shr_1_m by assumption.
    rewrite !Z.div_div by lia. f_equal. rewrite pow2_xI. ring.
  - destruct (IH _ Hm) as [H2 E2]. destruct (IH _ H2) as [H3 E3].
    split; [assumption|]. rewrite E3, E2.
    rewrite !Z.div_div by lia. f_equal. rewrite pow2_xO. ring.
  - split; [apply shr_1_nonneg; assumption|].
    rewrite shr_1_m by assumption. reflexivity.
Qed.

Lemma shr_1_exact (n : Z) :
  0 <= n -> shr_1 (Build_shr_record (2 * n) false false) = Build_shr_record n false false.
Proof. intros Hn. destruct n as [|p|p]; try lia; reflexivity. Qed.

Lemma iter_shr_1_exact (p : positive) : forall n,
  0 <= n ->
  SpecFloat.iter_pos shr_1 p (Build_shr_record (n * 2 ^ Zpos p) false false)
  = Build_shr_record n false false.
Proof.
  induction p as [p IH|p IH|]; intros n Hn; cbn [SpecFloat.iter_pos].
  - replace (n * 2 ^ Z.pos p~1) with (2 * ((n * 2 ^ Zpos p) * 2 ^ Zpos p))
      by (rewrite pow2_xI; ring).
    rewrite shr_1_exact by (apply Z.mul_nonneg_nonneg; [apply Z.mul_nonneg_nonneg|]; lia).
    rewrite IH by (apply Z.mul_nonneg_nonneg; lia). apply IH; assumption.
  - replace (n * 2 ^ Z.pos p~0) with ((n * 2 ^ Zpos p) * 2 ^ Zpos p)
      by (rewrite pow2_xO; ring).
    rewrite IH by (apply Z.mul_nonneg_nonneg; lia). apply IH; assumption.
  - rewrite Z.pow_1_r, Z.mul_comm. apply shr_1_exact; assumption.
Qed.

Lemma loc_of_shr_record_of_loc (m : Z) (l : location) :
  loc_of_shr_record (shr_record_of_loc m l) = l.
Proof. destruct l as [|[]]; reflexivity. Qed.

Lemma shr_m_record_of_loc (m : Z) (l : location) : shr_m (shr_record_of_loc m l) = m.
Proof. destruct l as [|[]]; reflexivity. Qed.

Lemma round_nearest_even_bounds (m : Z) (l : location) :
  m <= round_nearest_even m l <= m + 1.
Proof. destruct l as [|[]]; simpl; try lia. destruct (Z.even m); lia. Qed.


Lemma fexp_mono (x y : Z) : x <= y -> fexp prec emax x <= fexp prec emax y.
Proof. unfold fexp, emin. lia. Qed.

Lemma shr_fexp_bound (m e : Z) (l : location) (b eb : Z) :
  bound_ok b eb -> e <= eb ->
  0 <= m <= b * 2 ^ (eb - e) ->
  (m = b * 2 ^ (eb - e) -> l = loc_Exact) ->
  forall mrs' e', shr_fexp prec emax m e l = (mrs', e') ->
  e' <= eb /\ 0 <= shr_m mrs' <= b * 2 ^ (eb - e') /\
  (shr_m mrs' = b * 2 ^ (eb - e') -> loc_of_shr_record mrs' = loc_Exact).
Proof.
  intros (Hb & Hcan & _) He [Hm0 Hm] Hex mrs' e'. unfold shr_fexp, shr.
  assert (Hfe : fexp prec emax (Zdigits2 m + e) <= eb).
  { etransitivity; [|exact Hcan]. apply fexp_mono.
    pose proof (Zdigits2_scaled m b (eb - e) Hb ltac:(lia) (conj Hm0 Hm)). lia. }
  destruct (fexp prec emax (Zdigits2 m + e) - e) as [|p|p] eqn:En; intros [= <- <-].
  1,3: rewrite shr_m_record_of_loc, loc_of_shr_record_of_loc; auto.
  set (N1 := b * 2 ^ (eb - (e + Z.pos p))).
  assert (Hsplit : b * 2 ^ (eb - e) = N1 * 2 ^ Zpos p).
  { unfold N1. rewrite <- Z.mul_assoc, <- Z.pow_add_r by lia. do 2 f_equal. lia. }
  assert (Hp : 0 < 2 ^ Zpos p) by (apply Z.pow_pos_nonneg; lia).
  assert (HN1 : 0 <= N1) by (unfold N1; apply Z.mul_nonneg_nonneg; [lia|apply Z.pow_nonneg; lia]).
  destruct (iter_shr_1_m p (shr_record_of_loc m l)) as [H0 Hdiv];
    [rewrite shr_m_record_of_loc; assumption|].
  rewrite shr_m_record_of_loc in Hdiv.
  split; [lia|]. split; [split; [assumption|]|].
  - rewrite Hdiv. apply Z.div_le_upper_bound; [assumption|]. lia.
  - intros Heq. rewrite Hdiv in Heq.
    assert (m = N1 * 2 ^ Zpos p).
    { pose proof (Z.mul_div_le m (2 ^ Zpos p) Hp). rewrite Heq in *. lia. }
    rewrite Hex by lia. subst m. cbn [shr_record_of_loc].
    rewrite iter_shr_1_exact by assumption. reflexivity.
Qed.

Lemma binary_round_aux_below (mx ex : Z) (lx : location) (b eb : Z) :
  bound_ok b eb -> ex <= eb ->
  0 <= mx <= b * 2 ^ (eb - ex) ->
  (mx = b * 2 ^ (eb - ex) -> lx = loc_Exact) ->
  below (binary_round_aux prec emax false mx ex lx) b eb.
Proof.
  intros Hok He Hm Hex. unfold binary_round_aux.
  destruct (shr_fexp prec emax mx ex lx) as [mrs1 e1] eqn:E1.
  destruct (shr_fexp_bound _ _ _ _ _ Hok He Hm Hex _ _ E1) as (He1 & [Hm1 Hm1'] & Hex1).
  set (m2 := round_nearest_even (shr_m mrs1) (loc_of_shr_record mrs1)).
  assert (Hm2 : 0 <= m2 <= b * 2 ^ (eb - e1)).
  { pose proof (round_nearest_even_bounds (shr_m mrs1) (loc_of_shr_record mrs1)).
    fold m2 in H. split; [lia|].
    destruct (Z.eq_dec (shr_m mrs1) (b * 2 ^ (eb - e1))) as [Heq|Hne].
    - unfold m2. rewrite (Hex1 Heq). simpl. lia.
    - lia. }
  destruct (shr_fexp prec emax m2 e1 loc_Exact) as [mrs2 e2] eqn:E2.
  destruct (shr_fexp_bound _ _ _ _ _ Hok He1 Hm2 (fun _ => eq_refl) _ _ E2)
    as (He2 & [Hm3 Hm3'] & _).
  destruct (shr_m mrs2) as [|p|p] eqn:Em; [exact I| |lia].
  destruct Hok as (_ & _ & Hmax).
  replace (e2 <=? emax - prec) with true by (symmetry; apply Z.leb_le; lia).
  split; assumption.
Qed.

Lemma new_location_0 (n : Z) : new_location n 0 = loc_Exact.
Proof. unfold new_location. destruct (Z.even n); reflexivity. Qed.

Lemma bound_ok_one : bound_ok 1 0.
Proof. vm_compute. repeat split; discriminate. Qed.

Lemma bound_ok_hundred : bound_ok 25 2.
Proof. vm_compute. repeat split; discriminate. Qed.

(** The quotient of an [int] by itself is exactly [1.0]. *)
Lemma int_true_div_same (s : Z) : 0 < s -> int_true_div s s = one.
Proof.
  destruct s as [|p|p]; try lia. intros _.
  unfold int_true_div, int_operand, SFdiv, SFdiv_core_binary.
  replace (Zdigits2 (Z.pos p) + 0 - (Zdigits2 (Z.pos p) + 0)) with 0 by lia.
  change (Z.min (fexp prec emax 0) (0 - 0)) with (-53).
  change (0 - 0 - -53) with 53.
  rewrite Z.shiftl_mul_pow2 by lia.
  replace (Z.div_eucl (Z.pos p * 2 ^ 53) (Z.pos p)) with (2 ^ 53, 0).
  - rewrite new_location_0. reflexivity.
  - pose proof (Z.div_eucl_eq (Z.pos p * 2 ^ 53) (Z.pos p) ltac:(lia)) as Heq.
    pose proof (Z.mod_pos_bound (Z.pos p * 2 ^ 53) (Z.pos p) ltac:(lia)) as Hmod.
    unfold Z.modulo in Hmod.
    destruct (Z.div_eucl (Z.pos p * 2 ^ 53) (Z.pos p)) as [q r].
    assert (q = 2 ^ 53) by nia. f_equal; lia.
Qed.

(** The quotient of two positive [int]s, the first not above the
    second, is a double that is at most [1.0]. *)
Lemma int_true_div_below (s m : Z) : 0 < s <= m -> below (int_true_div s m) 1 0.
Proof.
  destruct s as [|ps|ps], m as [|pm|pm]; try lia. intros [_ Hsm].
  unfold int_true_div, int_operand, SFdiv, SFdiv_core_binary.
  pose proof (Zdigits2_scaled (Zpos ps) (Zpos pm) 0 ltac:(lia) ltac:(lia)
                ltac:(rewrite Z.pow_0_r; lia)) as Hd.
  set (e' := Z.min (fexp prec emax (Zdigits2 (Z.pos ps) + 0 - (Zdigits2 (Z.pos pm) + 0))) (0 - 0)).
  assert (He' : e' < 0) by (unfold e', fexp, emin, prec, emax; lia).
  destruct (0 - 0 - e') as [|sh|sh] eqn:Esh; try lia.
  rewrite Z.shiftl_mul_pow2 by lia.
  pose proof (Z.div_eucl_eq (Z.pos ps * 2 ^ Zpos sh) (Z.pos pm) ltac:(lia)) as Heq.
  pose proof (Z.mod_pos_bound (Z.pos ps * 2 ^ Zpos sh) (Z.pos pm) ltac:(lia)) as Hmod.
  unfold Z.modulo in Hmod.
  destruct (Z.div_eucl (Z.pos ps * 2 ^ Zpos sh) (Z.pos pm)) as [q r].
  assert (Hpow : 0 < 2 ^ Zpos sh) by (apply Z.pow_pos_nonneg; lia).
  replace (xorb false false) with false by reflexivity.
  replace (0 - e') with (Zpos sh) in * by lia.
  assert (Hq : 0 <= q <= 2 ^ Zpos sh) by nia.
  apply binary_round_aux_below.
  - exact bound_ok_one.
  - lia.
  - replace (0 - e') with (Zpos sh) by lia. lia.
  - replace (0 - e') with (Zpos sh) by lia. rewrite Z.mul_1_l. intros ->.
    assert (r = 0) by nia. subst r. apply new_location_0.
Qed.

Lemma mul_hundred_below (q : spec_float) :
  below q 1 0 -> below (mul q (of_int 100)) 25 2.
Proof.
  change (of_int 100) with (S754_finite false 7036874417766400 (-46)).
  unfold mul, SFmul.
  destruct q as [[|]| | |[|] mq eq]; cbn [below]; try contradiction; auto.
  intros [He Hm]. rewrite Z.mul_1_l in Hm. replace (xorb false false) with false by reflexivity.
  assert (Hpow : 0 < 2 ^ (0 - eq)) by (apply Z.pow_pos_nonneg; lia).
  apply binary_round_aux_below.
  - exact bound_ok_hundred.
  - lia.
  - split; [lia|].
    replace (2 - (eq + -46)) with (48 + (0 - eq)) by lia.
    rewrite Z.pow_add_r by lia. rewrite Pos2Z.inj_mul.
    change (Z.pos 7036874417766400) with (25 * 2 ^ 48). nia.
  - reflexivity.
Qed.

Lemma round_below (x : spec_float) :
  below x 25 2 -> exists k, 0 <= k <= 1000 /\ round x 1 = tenths k.
Proof.
  destruct x as [[|]| | |[|] m e]; simpl; try contradiction.
  - intros _. exists 0. split; [lia|reflexivity].
  - intros [He Hm].
    assert (Hk : 0 <= nearest_decimal m e 1 <= 1000).
    { unfold nearest_decimal. change (10 ^ Z.of_nat 1) with 10.
      destruct e as [|pe|sh].
      - change (2 ^ (2 - 0)) with 4 in Hm. rewrite Z.pow_0_r. lia.
      - assert (Z.pos pe = 1 \/ Z.pos pe = 2) as [E|E] by lia; rewrite E in *; simpl in Hm; lia.
      - unfold div_half_even.
        assert (Hd : 0 < 2 ^ Z.pos sh) by (apply Z.pow_pos_nonneg; lia).
        replace (2 - Z.neg sh) with (2 + Zpos sh) in Hm by lia.
        rewrite Z.pow_add_r in Hm by lia. change (2 ^ 2) with 4 in Hm.
        pose proof (Z.div_mod (Z.pos m * 10) (2 ^ Z.pos sh) ltac:(lia)) as Hdm.
        pose proof (Z.mod_pos_bound (Z.pos m * 10) (2 ^ Z.pos sh) Hd) as Hmod.
        set (q := Z.pos m * 10 / 2 ^ Z.pos sh) in *.
        set (r := (Z.pos m * 10) mod 2 ^ Z.pos sh) in *.
        assert (Hq : 0 <= q <= 1000) by nia.
        destruct (Z.compare_spec (2 * r) (2 ^ Z.pos sh)) as [Hc|Hc|Hc].
        + destruct (Z.even q); [lia|]. assert (q <> 1000) by nia. lia.
        + lia.
        + assert (q <> 1000) by nia. lia. }
    exists (nearest_decimal m e 1). split; [assumption|].
    unfold round, tenths.
    destruct (nearest_decimal m e 1) as [|k|k]; reflexivity.
Qed.

(** *** Comparisons *)

Lemma SFcompare_antisym (x y : spec_float) :
  SFcompare y x = option_map CompOpp (SFcompare x y).
Proof.
  destruct x as [sx|sx| |sx mx ex], y as [sy|sy| |sy my ey]; simpl;
    try reflexivity; try (destruct sx; reflexivity); try (destruct sy; reflexivity);
    try (destruct sx, sy; reflexivity).
  destruct sx, sy; try reflexivity; f_equal;
    rewrite (Z.compare_antisym ex ey);
    destruct (ex ?= ey); simpl; try reflexivity;
    rewrite (Pos.compare_cont_antisym mx my Eq); simpl;
    try reflexivity; destruct (Pos.compare_cont Eq mx my); reflexivity.
Qed.

Lemma SFcompare_None (x y : spec_float) :
  SFcompare x y = None -> is_nan x = true \/ is_nan y = true.
Proof.
  destruct x as [sx|sx| |sx mx ex], y as [sy|sy| |sy my ey]; simpl; auto; discriminate.
Qed.

Lemma ltb_false_leb (x y : spec_float) :
  is_nan x = false -> is_nan y = false -> ltb x y = false -> leb y x = true.
Proof.
  intros Hx Hy. unfold ltb, leb, SFltb, SFleb. rewrite (SFcompare_antisym x y).
  destruct (SFcompare x y) as [[]|] eqn:E; simpl; try congruence.
  destruct (SFcompare_None _ _ E); congruence.
Qed.

Lemma ltb_leb (x y : spec_float) : ltb x y = true -> leb x y = true.
Proof. unfold ltb, leb, SFltb, SFleb. destruct (SFcompare x y) as [[]|]; congruence. Qed.

Lemma ltb_not_eqb (x y : spec_float) : ltb x y = true -> eqb y x = false.
Proof.
  unfold ltb, eqb, SFltb, SFeqb. rewrite (SFcompare_antisym x y).
  destruct (SFcompare x y) as [[]|]; simpl; congruence.
Qed.
Lemma compare_cont_Eq (p q : positive) : Pos.compare_cont Eq p q = (p ?= q)%positive.
Proof. reflexivity. Qed.

(** On finite numbers [<=] is the lexicographic order on sign,
    exponent and mantissa. *)
Lemma SFleb_finite (s1 s2 : bool) (m1 m2 : positive) (e1 e2 : Z) :
  SFleb (S754_finite s1 m1 e1) (S754_finite s2 m2 e2) = true <->
  match s1, s2 with
  | true, false => True
  | false, true => False
  | false, false => e1 < e2 \/ (e1 = e2 /\ (m1 <= m2)%positive)
  | true, true => e2 < e1 \/ (e1 = e2 /\ (m2 <= m1)%positive)
  end.
Proof.
  unfold SFleb, SFcompare. rewrite compare_cont_Eq.
  destruct s1, s2; try (split; [auto|reflexivity]); try (split; [discriminate|contradiction]);
    destruct (Z.compare_spec e1 e2); try (split; [intros; lia|reflexivity]);
    try (split; [discriminate|lia]);
    destruct (Pos.compare_spec m1 m2); simpl; split; try lia; try reflexivity; try discriminate;
    intros _; right; split; lia.
Qed.

Lemma leb_trans (x y z : spec_float) :
  leb x y = true -> leb y z = true -> leb x z = true.
Proof.
  unfold leb.
  destruct x as [sx|sx| |sx mx ex], y as [sy|sy| |sy my ey], z as [sz|sz| |sz mz ez];
    try (unfold SFleb; simpl; discriminate);
    try (unfold SFleb; simpl; intros; reflexivity);
    try (unfold SFleb; simpl; destruct sx; try discriminate; destruct sy; try discriminate;
         destruct sz; try discriminate; intros; reflexivity);
    try (unfold SFleb; simpl; destruct sx; try discriminate; destruct sz; try discriminate;
         destruct sy; intros; try discriminate; reflexivity).
  all: rewrite !SFleb_finite; destruct sx, sy, sz; try tauto; lia.
Qed.

(** *** The doubles [k / 10] for [0 <= k <= 1000] *)

Lemma tenths_table :
  forallb (fun i => let x := tenths (Z.of_nat i) in
                    leb zero x && leb x hundred && negb (is_nan x)
                    && (negb (leb hundred x) || (i =? 1000)%nat))
          (seq 0 1001) = true.
Proof. vm_compute. reflexivity. Qed.

Lemma tenths_range (k : Z) :
  0 <= k <= 1000 ->
  leb zero (tenths k) = true /\ leb (tenths k) hundred = true /\ is_nan (tenths k) = false.
Proof.
  intros Hk. pose proof tenths_table as H.
  rewrite forallb_forall in H. specialize (H (Z.to_nat k)).
  rewrite Z2Nat.id in H by lia. cbv zeta in H.
  assert (Hin : In (Z.to_nat k) (seq 0 1001)) by (apply in_seq; lia).
  apply H in Hin. apply andb_prop in Hin as [Hin _].
  apply andb_prop in Hin as [Hin Hnan]. apply andb_prop in Hin as [H0 H1].
  apply negb_true_iff in Hnan. auto.
Qed.

Lemma tenths_1000 : tenths 1000 = hundred.
Proof. vm_compute. reflexivity. Qed.

(** Among these doubles only [100.0] is at least [100.0]. *)
Lemma tenths_top (k : Z) :
  0 <= k <= 1000 -> leb hundred (tenths k) = true -> tenths k = hundred.
Proof.
  intros Hk Hle. pose proof tenths_table as H.
  rewrite forallb_forall in H. specialize (H (Z.to_nat k)).
  rewrite Z2Nat.id in H by lia. cbv zeta in H.
  assert (Hin : In (Z.to_nat k) (seq 0 1001)) by (apply in_seq; lia).
  apply H in Hin. apply andb_prop in Hin as [_ Hin].
  rewrite Hle in Hin. simpl in Hin. apply Nat.eqb_eq in Hin.
  replace k with 1000 by lia. apply tenths_1000.
Qed.

End FloatFacts.

(** ** Probabilities *)

Section Probability.
Import Float FloatFacts.

Lemma probability_max (max_score : Z) :
  0 < max_score -> probability max_score max_score = hundred.
Proof.
  intros H. unfold probability. rewrite int_true_div_same by assumption.
  vm_compute. reflexivity.
Qed.

Lemma probability_tenths (max_score score : Z) :
  0 < score <= max_score ->
  exists k, 0 <= k <= 1000 /\ probability max_score score = tenths k.
Proof.
  intros H. unfold probability.
  apply round_below, mul_hundred_below, int_true_div_below, H.
Qed.

Lemma int_true_div_finite (max_score score : Z) :
  0 < score <= max_score ->
  truediv score max_score = mret (int_true_div score max_score).
Proof.
  intros H. unfold truediv.
  replace (max_score =? 0) with false by (symmetry; apply Z.eqb_neq; lia).
  pose proof (int_true_div_below _ _ H) as Hb.
  destruct (int_true_div score max_score) as [[|]| | |[|] m e]; simpl in Hb;
    try contradiction; reflexivity.
Qed.

End Probability.

(** ** Calls that return *)

Lemma returns_ret {A : Type} (a : A) (g : globals) : returns (mret a) g a.
Proof. reflexivity. Qed.

Lemma returns_global {A : Type} (name : globals -> A) (g : globals) :
  returns (global name) g (name g).
Proof. reflexivity. Qed.

Lemma returns_inj {A : Type} (m : Py A) (g : globals) (a a' : A) :
  returns m g a -> returns m g a' -> a = a'.
Proof. unfold returns. intros -> [= ->]. reflexivity. Qed.

Lemma returns_bind {A B : Type} (m : Py A) (k : A -> Py B) (g : globals) (a : A) (b : B) :
  returns m g a -> returns (k a) g b -> returns (m ≫= k) g b.
Proof. unfold returns, mbind, Py_bind. intros -> Hk. exact Hk. Qed.

(** A loop whose body returns [f s x] computes a left fold of [f]. *)
Lemma for_in_returns {A S : Type} (f : S -> A -> S) (body : A -> S -> Py S)
    (g : globals) (xs : list A) :
  (forall x s, x ∈ xs -> returns (body x s) g (f s x)) ->
  forall s, returns (for_in xs body s) g (fold_left f xs s).
Proof.
  induction xs as [|x xs IH]; intros Hbody s; simpl.
  - apply returns_ret.
  - eapply returns_bind.
    + apply Hbody. left.
    + apply IH. intros y s' Hy. apply Hbody. right. exact Hy.
Qed.

Lemma mapM_returns {A B : Type} (f : A -> Py B) (h : A -> B) (g : globals) (l : list A) :
  (forall x, x ∈ l -> returns (f x) g (h x)) ->
  returns (mapM f l) g (map h l).
Proof.
  induction l as [|x l IH]; intros Hf; simpl.
  - apply returns_ret.
  - eapply returns_bind; [apply Hf; left|].
    eapply returns_bind; [apply IH; intros y Hy; apply Hf; right; exact Hy|].
    apply returns_ret.
Qed.

(** ** The local dictionary *)

Module DictFacts.
Import Dict.

Lemma contains_lookup (d : t) (k : string) :
  contains d k = match lookup d k with Some _ => true | None => false end.
Proof.
  induction d as [|[k' v] d IH]; simpl; [reflexivity|].
  destruct (String.eqb k' k); [reflexivity|exact IH].
Qed.

Lemma lookup_setitem (d : t) (k k' : string) (v : Z) :
  lookup (setitem d k v) k' = if String.eqb k k' then Some v else lookup d k'.
Proof.
  induction d as [|[k0 v0] d IH]; simpl.
  - reflexivity.
  - destruct (String.eqb k0 k) eqn:E0; simpl.
    + apply String.eqb_eq in E0 as ->. destruct (String.eqb k k'); reflexivity.
    + rewrite IH. destruct (String.eqb k0 k') eqn:E1; [|reflexivity].
      apply String.eqb_eq in E1 as ->. rewrite String.eqb_sym, E0. reflexivity.
Qed.

Lemma setitem_setitem (d : t) (k : string) (v w : Z) :
  setitem (setitem d k v) k w = setitem d k w.
Proof.
  induction d as [|[k0 v0] d IH]; simpl.
  - rewrite String.eqb_refl. reflexivity.
  - destruct (String.eqb k0 k) eqn:E0; simpl; rewrite E0; [reflexivity|].
    rewrite IH. reflexivity.
Qed.

(** The keys after an assignment: unchanged when the key is there,
    one more at the end when it is new. *)
Lemma keys_setitem (d : t) (k : string) (v : Z) :
  map fst (setitem d k v) = if contains d k then map fst d else map fst d ++ [k].
Proof.
  induction d as [|[k0 v0] d IH]; simpl.
  - reflexivity.
  - destruct (String.eqb k0 k) eqn:E0; simpl; [reflexivity|].
    rewrite IH. destruct (contains d k); reflexivity.
Qed.

Lemma contains_keys (d : t) (k : string) : contains d k = true <-> k ∈ map fst d.
Proof.
  induction d as [|[k0 v0] d IH]; simpl.
  - split; [discriminate|]. intros H; inversion H.
  - rewrite elem_of_cons. destruct (String.eqb k0 k) eqn:E0.
    + apply String.eqb_eq in E0. split; auto.
    + apply String.eqb_neq in E0. rewrite IH. split; [auto|]. intros [-> |H]; [congruence|exact H].
Qed.

Lemma elem_of_lookup (d : t) (k : string) (v : Z) :
  NoDup (map fst d) -> (k, v) ∈ d -> lookup d k = Some v.
Proof.
  induction d as [|[k0 v0] d IH]; simpl; intros Hnd Hin.
  - inversion Hin.
  - apply NoDup_cons in Hnd as [Hk0 Hnd].
    apply elem_of_cons in Hin as [[= -> ->]|Hin].
    + rewrite String.eqb_refl. reflexivity.
    + destruct (String.eqb k0 k) eqn:E0; [|apply IH; assumption].
      apply String.eqb_eq in E0 as ->. exfalso. apply Hk0.
      apply (list_elem_of_fmap_2 fst) in Hin. exact Hin.
Qed.

(** The loop body of [predict_disease] on one disease. *)
Lemma body_returns (g : globals) (disease : string) (disease_score : t) :
  returns
    (let disease_score :=
       if contains disease_score disease then disease_score
       else setitem disease_score disease 0 in
     score ← getitem disease_score disease;
     mret (setitem disease_score disease (score + 1)))
    g (bump disease_score disease).
Proof.
  unfold bump. rewrite contains_lookup.
  destruct (lookup disease_score disease) as [v|] eqn:E.
  - cbv zeta. unfold getitem. rewrite E. apply returns_ret.
  - cbv zeta. unfold getitem. rewrite lookup_setitem, String.eqb_refl.
    eapply returns_bind; [apply returns_ret|].
    rewrite setitem_setitem. apply returns_ret.
Qed.

End DictFacts.

(** ** The accumulated scores *)

Section Tally.
Import Dict DictFacts.

Lemma keys_bump (d : t) (x : string) :
  map fst (bump d x) = if contains d x then map fst d else map fst d ++ [x].
Proof. unfold bump. destruct (lookup d x); apply keys_setitem. Qed.

Lemma lookup_bump (d : t) (x k : string) :
  lookup (bump d x) k =
    if String.eqb x k then Some (default 0 (lookup d x) + 1) else lookup d k.
Proof.
  unfold bump. destruct (lookup d x) as [v|]; rewrite lookup_setitem; reflexivity.
Qed.

Lemma NoDup_keys_bump (d : t) (x : string) :
  NoDup (map fst d) -> NoDup (map fst (bump d x)).
Proof.
  intros Hnd. rewrite keys_bump. destruct (contains d x) eqn:E; [assumption|].
  apply NoDup_app. split; [assumption|]. split; [|apply NoDup_singleton].
  intros y Hy Hx. apply list_elem_of_singleton in Hx as ->.
  apply contains_keys in Hy. congruence.
Qed.

Lemma NoDup_keys_fold (l : list string) : forall d,
  NoDup (map fst d) -> NoDup (map fst (fold_left bump l d)).
Proof.
  induction l as [|x l IH]; intros d Hnd; simpl; [assumption|].
  apply IH, NoDup_keys_bump, Hnd.
Qed.

Lemma NoDup_keys_tally (l : list string) : NoDup (map fst (tally l)).
Proof. apply NoDup_keys_fold. constructor. Qed.

Lemma occurrences_cons (k x : string) (l : list string) :
  occurrences k (x :: l) = (if String.eqb x k then 1 else 0) + occurrences k l.
Proof.
  unfold occurrences. rewrite filter_cons.
  destruct (String.eqb x k) eqn:E.
  - apply String.eqb_eq in E. rewrite decide_True by assumption. simpl length. lia.
  - apply String.eqb_neq in E. rewrite decide_False by assumption. lia.
Qed.

Lemma occurrences_nonneg (k : string) (l : list string) : 0 <= occurrences k l.
Proof. unfold occurrences. lia. Qed.

Lemma occurrences_pos (k : string) (l : list string) : 0 < occurrences k l <-> k ∈ l.
Proof.
  induction l as [|x l IH].
  - split; [unfold occurrences; simpl; lia|]. intros H; inversion H.
  - rewrite occurrences_cons, elem_of_cons. pose proof (occurrences_nonneg k l).
    destruct (String.eqb x k) eqn:E.
    + apply String.eqb_eq in E. split; [auto|lia].
    + apply String.eqb_neq in E. rewrite <- IH. split; [intros; right; lia|].
      intros [-> |?]; [congruence|lia].
Qed.

(** Every entry of the dictionary counts the occurrences seen. *)
Lemma lookup_fold_bump (l : list string) (k : string) : forall d,
  lookup (fold_left bump l d) k =
    match lookup d k with
    | Some v => Some (v + occurrences k l)
    | None => if decide (k ∈ l) then Some (occurrences k l) else None
    end.
Proof.
  induction l as [|x l IH]; intros d; cbn [fold_left].
  - destruct (lookup d k); [f_equal; unfold occurrences; simpl; lia|].
    rewrite decide_False; [reflexivity|]. intros H; inversion H.
  - rewrite IH, lookup_bump, occurrences_cons.
    destruct (String.eqb x k) eqn:E.
    + apply String.eqb_eq in E as ->.
      destruct (lookup d k) as [v|].
      * simpl. f_equal; lia.
      * rewrite decide_True by left. simpl. f_equal; lia.
    + apply String.eqb_neq in E.
      destruct (lookup d k) as [v|]; [reflexivity|].
      destruct (decide (k ∈ l)) as [Hin|Hin].
      * rewrite decide_True by (right; assumption). reflexivity.
      * rewrite decide_False; [reflexivity|].
        intros [-> |?]%elem_of_cons; [congruence|contradiction].
Qed.

Lemma lookup_tally (l : list string) (k : string) :
  lookup (tally l) k = if decide (k ∈ l) then Some (occurrences k l) else None.
Proof. unfold tally. rewrite lookup_fold_bump. reflexivity. Qed.

Lemma elem_of_tally (l : list string) (k : string) (v : Z) :
  (k, v) ∈ tally l -> k ∈ l /\ v = occurrences k l /\ 1 <= v.
Proof.
  intros Hin. apply elem_of_lookup in Hin; [|apply NoDup_keys_tally].
  rewrite lookup_tally in Hin. destruct (decide (k ∈ l)) as [Hk|]; [|discriminate].
  injection Hin as <-. apply occurrences_pos in Hk as Hpos. repeat split; [assumption|lia].
Qed.

Lemma tally_nil_iff (l : list string) : tally l = [] <-> l = [].
Proof.
  split; [|intros ->; reflexivity].
  destruct l as [|x l]; [reflexivity|]. intros H.
  pose proof (lookup_tally (x :: l) x) as Hl. rewrite H in Hl.
  rewrite decide_True in Hl by left. discriminate.
Qed.

(** The order of the keys is the order of first occurrence. *)
Lemma before_snoc {A : Type} (x y z : A) (l : list A) :
  before x y (l ++ [z]) -> before x y l \/ (x ∈ l /\ y = z).
Proof.
  intros (l1 & l2 & l3 & E).
  destruct l3 as [|w l3 _] using rev_ind.
  - right. replace (l1 ++ x :: l2 ++ [y]) with ((l1 ++ x :: l2) ++ [y]) in E
      by (rewrite <- app_assoc; reflexivity).
    apply app_inj_tail in E as [-> ->]. split; [|reflexivity].
    apply elem_of_app. right. left.
  - left. replace (l1 ++ x :: l2 ++ y :: l3 ++ [w])
      with ((l1 ++ x :: l2 ++ y :: l3) ++ [w]) in E
      by (rewrite <- !app_assoc; simpl; rewrite <- !app_assoc; reflexivity).
    apply app_inj_tail in E as [-> _]. exists l1, l2, l3. reflexivity.
Qed.

Lemma before_keys_fold (d1 d2 : string) (l : list string) : forall d,
  before d1 d2 (map fst (fold_left bump l d)) ->
  before d1 d2 (map fst d)
  \/ (d1 ∈ map fst d /\ (d2 ∉ map fst d))
  \/ ((d1 ∉ map fst d) /\ (d2 ∉ map fst d) /\ met_first d1 d2 l).
Proof.
  induction l as [|x l IH]; intros d Hb; simpl in Hb; [left; exact Hb|].
  apply IH in Hb. rewrite keys_bump in Hb.
  destruct (contains d x) eqn:Ex.
  - apply contains_keys in Ex.
    destruct Hb as [Hb | [ [H1 H2] | (H1 & H2 & l1 & l2 & -> & Hn1 & Hn2 & Hne) ] ]; auto.
    right; right. split; [assumption|]. split; [assumption|].
    exists (x :: l1), l2. split; [reflexivity|].
    split; [|split; [|assumption]]; intros [-> |?]%elem_of_cons; contradiction.
  - assert (Hx : x ∉ map fst d) by (rewrite <- contains_keys; congruence).
    destruct Hb as [Hb | [ [H1 H2] | (H1 & H2 & l1 & l2 & -> & Hn1 & Hn2 & Hne) ] ].
    + apply before_snoc in Hb as [Hb|[Hin ->]]; auto.
    + rewrite elem_of_app, list_elem_of_singleton in H1, H2.
      destruct H1 as [H1| ->].
      * right; left. split; [assumption|]. intros ?; apply H2; auto.
      * right; right. split; [assumption|]. split; [intros ?; apply H2; auto|].
        exists [], l. split; [reflexivity|]. split; [intros H; inversion H|].
        split; [intros H; inversion H|]. intros ->. apply H2. auto.
    + rewrite elem_of_app, list_elem_of_singleton in H1, H2.
      right; right. split; [intros ?; apply H1; auto|].
      split; [intros ?; apply H2; auto|].
      exists (x :: l1), l2. split; [reflexivity|].
      split; [|split; [|assumption]]; intros [-> |?]%elem_of_cons; auto.
Qed.

Lemma before_keys_tally (d1 d2 : string) (l : list string) :
  before d1 d2 (map fst (tally l)) -> met_first d1 d2 l.
Proof.
  intros Hb. apply before_keys_fold in Hb.
  destruct Hb as [(l1 & l2 & l3 & E) | [ [H _] | (_ & _ & H) ] ].
  - destruct l1; discriminate.
  - inversion H.
  - exact H.
Qed.

End Tally.

(** ** The sort *)

Section Sorting.
Import Float FloatFacts.

Lemma geq_trans : Transitive geq.
Proof. intros a b c Hab Hbc. unfold geq in *. eapply leb_trans; eassumption. Qed.

(** Where [insert_desc] puts an entry: after the entries with a
    strictly larger key that come first, before everything else. *)
Lemma insert_desc_split (x : string * spec_float) (l : list (string * spec_float)) :
  exists l1 l2,
    l = l1 ++ l2 /\ insert_desc x l = l1 ++ x :: l2 /\
    Forall (fun y => ltb (snd x) (snd y) = true) l1.
Proof.
  induction l as [|y l IH]; simpl.
  - exists [], []. auto.
  - destruct (ltb (snd x) (snd y)) eqn:E.
    + destruct IH as (l1 & l2 & -> & -> & Hall).
      exists (y :: l1), l2. repeat split. constructor; assumption.
    + exists [], (y :: l). auto.
Qed.

Lemma insert_desc_perm (x : string * spec_float) (l : list (string * spec_float)) :
  insert_desc x l ≡ₚ x :: l.
Proof.
  destruct (insert_desc_split x l) as (l1 & l2 & -> & -> & _).
  symmetry. apply Permutation_middle.
Qed.

Lemma sort_perm (l : list (string * spec_float)) : sort_key1_reverse l ≡ₚ l.
Proof.
  induction l as [|x l IH]; simpl; [reflexivity|].
  rewrite insert_desc_perm. constructor. exact IH.
Qed.

Lemma insert_desc_sorted (x : string * spec_float) (l : list (string * spec_float)) :
  is_nan (snd x) = false -> Forall (fun y => is_nan (snd y) = false) l ->
  Sorted geq l -> Sorted geq (insert_desc x l).
Proof.
  intros Hx Hl Hs. induction Hs as [|y l Hs IH Hhd]; simpl.
  - repeat constructor.
  - apply Forall_cons in Hl as [Hy Hl].
    destruct (ltb (snd x) (snd y)) eqn:E.
    + constructor; [apply IH; assumption|].
      destruct l as [|z l]; simpl.
      * constructor. apply ltb_leb, E.
      * destruct (ltb (snd x) (snd z)); constructor.
        -- inversion Hhd; assumption.
        -- apply ltb_leb, E.
    + constructor; [constructor; assumption|].
      constructor. apply ltb_false_leb; assumption.
Qed.

Lemma sort_descending (l : list (string * spec_float)) :
  Forall (fun y => is_nan (snd y) = false) l -> descending (sort_key1_reverse l).
Proof.
  intros Hl. apply (@Sorted_StronglySorted _ _ geq_trans).
  induction l as [|x l IH]; simpl; [constructor|].
  apply Forall_cons in Hl as [Hx Hl].
  apply insert_desc_sorted; [assumption| |apply IH; assumption].
  rewrite sort_perm. assumption.
Qed.

Lemma before_insert {A : Type} (x y a : A) (l1 l2 : list A) :
    before x y (l1 ++ a :: l2) ->
    before x y (l1 ++ l2) \/ (x = a /\ y ∈ l2) \/ (y = a /\ x ∈ l1).
Proof.
    intros (k1 & k2 & k3 & E).
    apply app_eq_app in E as [l [[-> E]|[-> E]]].
    - destruct l as [|x' l]; simpl in E.
      + injection E as <- <-. before_side.
      + injection E as <- E. symmetry in E.
        apply app_eq_app in E as [l' [[-> E]|[-> E]]].
        * destruct l' as [|y' l']; simpl in E.
          -- injection E as <- <-. before_side.
          -- injection E as <- ->. left. exists k1, k2, (l' ++ l2).
             assoc_refl.
        * destruct l' as [|y' l']; simpl in E.
          -- injection E as <- <-. before_side.
          -- injection E as <- ->. left. exists k1, (l ++ l'), k3.
             assoc_refl.
    - destruct l as [|a' l]; simpl in E.
      + injection E as ? ?; subst. before_side.
      + injection E as ? ?; subst. left. exists (l1 ++ l), k2, k3. assoc_refl.
Qed.

Lemma before_cons {A : Type} (x y a : A) (l : list A) : before x y l -> before x y (a :: l).
Proof. intros (l1 & l2 & l3 & ->). exists (a :: l1), l2, l3. reflexivity. Qed.

Lemma before_head {A : Type} (x y : A) (l : list A) : y ∈ l -> before x y (x :: l).
Proof.
  intros (l1 & l2 & ->)%list_elem_of_split. exists [], l1, l2. reflexivity.
Qed.

(** The sort is stable: entries with equal keys keep their order. *)
Lemma sort_stable (x y : string * spec_float) (l : list (string * spec_float)) :
  before x y (sort_key1_reverse l) -> eqb (snd x) (snd y) = true -> before x y l.
Proof.
  intros Hb Heq. induction l as [|a l IH] in Hb |- *; simpl in Hb.
  - destruct Hb as (l1 & l2 & l3 & E). destruct l1; discriminate.
  - destruct (insert_desc_split a (sort_key1_reverse l)) as (l1 & l2 & E1 & E2 & Hall).
    rewrite E2 in Hb. apply before_insert in Hb as [Hb|[[-> Hin]|[-> Hin]]].
    + apply before_cons, IH. rewrite E1. exact Hb.
    + apply before_head. rewrite <- (sort_perm l), E1. apply elem_of_app. auto.
    + rewrite Forall_forall in Hall. apply Hall in Hin.
      apply ltb_not_eqb in Hin. congruence.
Qed.

Lemma before_take {A : Type} (x y : A) (n : nat) (l : list A) :
  before x y (take n l) -> before x y l.
Proof.
  intros (l1 & l2 & l3 & E). exists l1, l2, (l3 ++ drop n l).
  rewrite <- (take_drop n l) at 1. rewrite E, <- !app_assoc. simpl.
  rewrite <- !app_assoc. reflexivity.
Qed.

Lemma before_map {A B : Type} (f : A -> B) (x y : B) (l : list A) :
  before x y (map f l) -> exists a b, f a = x /\ f b = y /\ before a b l.
Proof.
  intros (l1 & l2 & l3 & E).
  apply map_eq_app in E as (k1 & k & -> & <- & E).
  destruct k as [|a k]; [discriminate|]. injection E as <- E.
  apply map_eq_app in E as (k2 & k' & -> & <- & E).
  destruct k' as [|b k3]; [discriminate|]. injection E as <- <-.
  exists a, b. repeat split. exists k1, k2, k3. reflexivity.
Qed.

Lemma map_before {A B : Type} (f : A -> B) (a b : A) (l : list A) :
  before a b l -> before (f a) (f b) (map f l).
Proof.
  intros (l1 & l2 & l3 & ->). exists (map f l1), (map f l2), (map f l3).
  rewrite map_app. simpl. rewrite map_app. reflexivity.
Qed.

Lemma descending_take (n : nat) (l : list (string * spec_float)) :
  descending l -> descending (take n l).
Proof.
  unfold descending. intros H. rewrite <- (take_drop n l) in H.
  apply StronglySorted_app_1_l in H. exact H.
Qed.

End Sorting.

(** ** predict_disease *)

Section Scoring.
Import Float FloatFacts Dict DictFacts.

Lemma fold_left_max_ge (xs : list Z) : forall x,
  x <= fold_left Z.max xs x /\ Forall (fun y => y <= fold_left Z.max xs x) xs.
Proof.
  induction xs as [|y xs IH]; intros x; simpl.
  - split; [lia|constructor].
  - destruct (IH (Z.max x y)) as [H1 H2]. split; [lia|].
    constructor; [lia|assumption].
Qed.

Lemma fold_left_max_in (xs : list Z) : forall x,
  fold_left Z.max xs x = x \/ fold_left Z.max xs x ∈ xs.
Proof.
  induction xs as [|y xs IH]; intros x; simpl; [auto|].
  destruct (IH (Z.max x y)) as [E|E].
  - rewrite E. destruct (Z.max_spec x y) as [[_ ->]|[_ ->]]; [right; left|auto].
  - right. right. exact E.
Qed.

Lemma max_of_ge (xs : list Z) (y : Z) : y ∈ xs -> y <= max_of xs.
Proof.
  destruct xs as [|x xs]; [intros H; inversion H|].
  unfold max_of. destruct (fold_left_max_ge xs x) as [H1 H2].
  intros [->|Hy]%elem_of_cons; [assumption|].
  rewrite Forall_forall in H2. apply H2, Hy.
Qed.

Lemma max_of_in (xs : list Z) : xs <> [] -> max_of xs ∈ xs.
Proof.
  destruct xs as [|x xs]; [congruence|]. intros _. unfold max_of.
  destruct (fold_left_max_in xs x) as [->|H]; [left|right; exact H].
Qed.

(** The two nested loops fill the dictionary with the tally of the
    diseases met. *)
Lemma accumulate_returns (g : globals) (symptoms : list string) : forall disease_score,
  returns
    (for_in symptoms (fun symptom disease_score =>
       table ← global symptom_disease_map;
       match table !! symptom with
       | Some diseases =>
           for_in diseases (fun disease disease_score =>
             let disease_score :=
               if contains disease_score disease then disease_score
               else setitem disease_score disease 0 in
             score ← getitem disease_score disease;
             mret (setitem disease_score disease (score + 1))) disease_score
       | None => mret disease_score
       end) disease_score)
    g (fold_left bump (associations g symptoms) disease_score).
Proof.
  induction symptoms as [|symptom symptoms IH]; intros disease_score.
  - apply returns_ret.
  - cbn [for_in associations flat_map]. rewrite fold_left_app.
    eapply returns_bind; [|apply IH].
    eapply returns_bind; [apply returns_global|].
    destruct (symptom_disease_map g !! symptom) as [diseases|]; cbn [default].
    + apply for_in_returns. intros disease d _. apply body_returns.
    + apply returns_ret.
Qed.

(** A score in the dictionary lies between 1 and the maximum. *)
Lemma tally_score_range (stream : list string) (disease : string) (score : Z) :
  (disease, score) ∈ tally stream ->
  0 < score <= max_of (values (tally stream)).
Proof.
  intros Hin. split.
  - apply elem_of_tally in Hin. lia.
  - apply max_of_ge. unfold values.
    apply (list_elem_of_fmap_2 snd) in Hin. exact Hin.
Qed.

Theorem predict_disease_returns (g : globals) (symptoms : list string) (top_n : Z) :
  returns (predict_disease symptoms top_n) g (slice_to (ranking g symptoms) top_n).
Proof.
  unfold predict_disease.
  eapply returns_bind; [apply accumulate_returns|].
  fold (tally (associations g symptoms)). unfold ranking.
  set (disease_score := tally (associations g symptoms)).
  assert (Hrange : forall d s, (d, s) ∈ disease_score ->
                     0 < s <= max_of (values disease_score))
    by (intros d s; apply tally_score_range).
  clearbody disease_score.
  destruct disease_score as [|entry rest].
  - unfold slice_to. simpl. rewrite !take_nil. destruct (top_n <? 0); apply returns_ret.
  - set (disease_score := entry :: rest) in *.
    apply (returns_bind _ _ _ (max_of (values disease_score))); [reflexivity|].
    eapply returns_bind; [|apply returns_ret].
    unfold items.
    apply (mapM_returns _
             (fun '(disease, score) =>
                (disease, probability (max_of (values disease_score)) score))).
    intros [d sc] Hin. rewrite (int_true_div_finite _ _ (Hrange _ _ Hin)).
    eapply returns_bind; apply returns_ret.
Qed.

End Scoring.

(** ** The ranking *)

Section Ranking.
Import Float FloatFacts Dict DictFacts.

Lemma lookup_elem_of (d : Dict.t) (k : string) (v : Z) : lookup d k = Some v -> (k, v) ∈ d.
Proof.
  induction d as [|[k0 v0] d IH]; simpl; [discriminate|].
  destruct (String.eqb k0 k) eqn:E.
  - apply String.eqb_eq in E as ->. intros [= ->]. left.
  - intros H. right. apply IH, H.
Qed.

Lemma raw_score_occurrences (g : globals) (symptoms : list string) (disease : string) :
  raw_score g symptoms disease = occurrences disease (associations g symptoms).
Proof. reflexivity. Qed.

(** The maximum that the code takes over the dictionary is the largest
    raw score. *)
Lemma max_of_tally (g : globals) (symptoms : list string) :
  max_of (values (tally (associations g symptoms))) = max_score g symptoms.
Proof.
  unfold max_score. set (stream := associations g symptoms).
  destruct stream as [|d0 stream'] eqn:E; [reflexivity|]. rewrite <- E.
  assert (Hne : stream <> []) by (rewrite E; discriminate).
  apply Z.le_antisymm.
  - assert (H : max_of (values (tally stream)) ∈ values (tally stream)).
    { apply max_of_in. unfold values. intros Hnil. apply map_eq_nil in Hnil.
      apply tally_nil_iff in Hnil. contradiction. }
    unfold values in H at 2. apply list_elem_of_fmap in H as ([d v] & Hv & Hin).
    simpl in Hv. rewrite Hv. apply elem_of_tally in Hin as (Hd & -> & _).
    apply max_of_ge. apply list_elem_of_fmap. exists d. split; [reflexivity|exact Hd].
  - assert (H : max_of (map (raw_score g symptoms) stream) ∈ map (raw_score g symptoms) stream).
    { apply max_of_in. intros Hnil. apply map_eq_nil in Hnil. contradiction. }
    apply list_elem_of_fmap in H as (d & Hv & Hd). rewrite Hv.
    apply max_of_ge. unfold values. apply list_elem_of_fmap.
    exists (d, raw_score g symptoms d). split; [reflexivity|].
    apply lookup_elem_of. rewrite lookup_tally, decide_True by exact Hd. reflexivity.
Qed.

Lemma ranking_perm (g : globals) (symptoms : list string) :
  ranking g symptoms ≡ₚ
    map (fun '(disease, score) => (disease, probability (max_score g symptoms) score))
        (tally (associations g symptoms)).
Proof. unfold ranking. rewrite max_of_tally. apply sort_perm. Qed.

(** Every entry of the ranking is a disease that was met, with the
    probability computed from its raw score. *)
Lemma ranking_elem (g : globals) (symptoms : list string) (d : string) (p : spec_float) :
  (d, p) ∈ ranking g symptoms ->
  d ∈ associations g symptoms /\
  0 < raw_score g symptoms d <= max_score g symptoms /\
  p = probability (max_score g symptoms) (raw_score g symptoms d).
Proof.
  rewrite ranking_perm. intros ([d' s] & [= <- ->] & Hin)%list_elem_of_fmap.
  pose proof (tally_score_range _ _ _ Hin) as Hr. rewrite max_of_tally in Hr.
  apply elem_of_tally in Hin as (Hd & -> & _).
  rewrite raw_score_occurrences. auto.
Qed.

Lemma ranking_not_nan (g : globals) (symptoms : list string) :
  Forall (fun y => is_nan (snd y) = false) (ranking g symptoms).
Proof.
  apply Forall_forall. intros [d p] Hin. apply ranking_elem in Hin as (_ & Hr & ->).
  destruct (probability_tenths _ _ Hr) as (k & Hk & ->). apply tenths_range, Hk.
Qed.

Lemma ranking_descending (g : globals) (symptoms : list string) :
  descending (ranking g symptoms).
Proof.
  unfold ranking. apply sort_descending.
  rewrite <- (sort_perm _). apply ranking_not_nan.
Qed.

(** A disease with the largest raw score is in the ranking, at 100.0. *)
Lemma ranking_has_hundred (g : globals) (symptoms : list string) :
  ranking g symptoms <> [] -> exists d, (d, hundred) ∈ ranking g symptoms.
Proof.
  intros Hne.
  assert (Ht : tally (associations g symptoms) <> []).
  { intros Hnil. apply Hne. unfold ranking. rewrite Hnil. reflexivity. }
  assert (H : max_of (values (tally (associations g symptoms)))
              ∈ values (tally (associations g symptoms))).
  { apply max_of_in. unfold values. intros Hnil. apply map_eq_nil in Hnil. contradiction. }
  unfold values in H at 2. apply list_elem_of_fmap in H as ([d v] & Hv & Hin). simpl in Hv.
  exists d. rewrite ranking_perm. apply list_elem_of_fmap. exists (d, v). split; [|exact Hin].
  pose proof (tally_score_range _ _ _ Hin) as Hr.
  rewrite <- Hv, max_of_tally in *. subst v. rewrite probability_max by lia. reflexivity.
Qed.

(** [l[:stop]] is a prefix. *)
Lemma slice_to_take {A : Type} (l : list A) (stop : Z) :
  slice_to l stop =
    take (if stop <? 0 then Z.to_nat (Z.of_nat (length l) + stop) else Z.to_nat stop) l.
Proof.
  unfold slice_to. destruct (stop <? 0); [|reflexivity]. f_equal. lia.
Qed.

Lemma slice_to_length {A : Type} (l : list A) (stop : Z) :
  0 <= stop -> Z.of_nat (length (slice_to l stop)) <= stop.
Proof.
  intros H. rewrite slice_to_take.
  replace (stop <? 0) with false by (symmetry; apply Z.ltb_ge; lia).
  rewrite length_take. lia.
Qed.

End Ranking.

(** ** Properties of predict_disease *)

(** C1, as the code has it: for every symptom collection and every
    [top_n] the call returns a sequence sorted non-increasing by
    probability, and when [top_n >= 0] its length is at most [top_n]. *)
Theorem predict_disease_sorted_and_bounded (g : globals) (symptoms : list string) (top_n : Z) :
  exists r,
    returns (predict_disease symptoms top_n) g r /\
    descending r /\
    (0 <= top_n -> Z.of_nat (length r) <= top_n).
Proof.
  exists (slice_to (ranking g symptoms) top_n).
  split; [apply predict_disease_returns|]. split.
  - rewrite slice_to_take. apply descending_take, ranking_descending.
  - apply slice_to_length.
Qed.

Lemma predict_disease_sorted_and_bounded_witness :
  exists r,
    returns (predict_disease ["fever"; "cough"; "fever"]%string 2) example_globals r /\
    descending r /\ Z.of_nat (length r) <= 2.
Proof.
  destruct (predict_disease_sorted_and_bounded
              example_globals ["fever"; "cough"; "fever"]%string 2) as (r & Hr & Hd & Hlen).
  exists r. split; [exact Hr|]. split; [exact Hd|]. apply Hlen. lia.
Defined.

(** C1 as stated fails for a negative [top_n]: on the worked example
    [top_n = -1] returns two entries, and 2 is not at most -1. *)
Lemma predict_disease_negative_top_n_exceeds :
  exists r,
    returns (predict_disease ["fever"; "cough"]%string (-1)) example_globals r /\
    length r = 2%nat /\ ~ (Z.of_nat (length r) <= -1).
Proof.
  eexists. split; [vm_compute; reflexivity|]. split; [reflexivity|]. simpl. lia.
Qed.

Section MaxScore.
Import Float FloatFacts.

(** [max_score] bounds every raw score, and some disease met reaches it. *)
Lemma raw_score_le_max (g : globals) (symptoms : list string) (d : string) :
  raw_score g symptoms d <= max_score g symptoms.
Proof.
  destruct (decide (d ∈ associations g symptoms)) as [Hd|Hd].
  - apply max_of_ge, list_elem_of_fmap. exists d. auto.
  - assert (raw_score g symptoms d = 0) as ->.
    { pose proof (occurrences_pos d (associations g symptoms)) as H.
      pose proof (occurrences_nonneg d (associations g symptoms)).
      rewrite raw_score_occurrences. destruct H as [H _].
      destruct (Z.eq_dec (occurrences d (associations g symptoms)) 0); [assumption|].
      exfalso. apply Hd, H. lia. }
    unfold max_score. destruct (associations g symptoms) as [|d0 l] eqn:E; [reflexivity|].
    rewrite <- E. etransitivity; [|apply max_of_ge, list_elem_of_fmap; exists d0; split;
      [reflexivity|rewrite E; left]].
    rewrite raw_score_occurrences. apply occurrences_nonneg.
Qed.

Lemma max_score_attained (g : globals) (symptoms : list string) :
  associations g symptoms <> [] ->
  exists d, d ∈ associations g symptoms /\ raw_score g symptoms d = max_score g symptoms.
Proof.
  intros Hne.
  assert (H : max_score g symptoms
              ∈ map (raw_score g symptoms) (associations g symptoms)).
  { apply max_of_in. intros Hnil. apply map_eq_nil in Hnil. contradiction. }
  apply list_elem_of_fmap in H as (d & Hv & Hd). exists d. auto.
Qed.

(** The first entry of a non-empty ranking is at 100.0. *)
Lemma ranking_head (g : globals) (symptoms : list string)
    (d0 : string) (p0 : spec_float) (rest : list (string * spec_float)) :
  ranking g symptoms = (d0, p0) :: rest -> p0 = hundred.
Proof.
  intros E.
  destruct (ranking_has_hundred g symptoms) as (d & Hd); [rewrite E; discriminate|].
  pose proof (ranking_descending g symptoms) as Hs. rewrite E in Hs, Hd.
  apply elem_of_cons in Hd as [[= _ ->]|Hd]; [reflexivity|].
  apply StronglySorted_inv in Hs as [_ Hall]. rewrite Forall_forall in Hall.
  apply Hall in Hd. unfold geq in Hd. simpl in Hd.
  assert (Hin : (d0, p0) ∈ ranking g symptoms) by (rewrite E; left).
  apply ranking_elem in Hin as (_ & Hr & Hp).
  destruct (probability_tenths _ _ Hr) as (k & Hk & Hk'). rewrite <- Hp in Hk'.
  rewrite Hk' in *. apply tenths_top; assumption.
Qed.

End MaxScore.

(** C2: the call returns, and every returned probability is
    [round((score / max_score) * 100, 1)] for the raw score of its
    disease and the largest raw score, which is at least 1; a disease
    with the largest raw score is at exactly 100.0; every probability is
    the double of some [k / 10] with [0 <= k <= 1000], between 0.0 and
    100.0; and the first entry returned is at 100.0. As soon as one
    disease has a nonzero count and [top_n >= 1], there is such a first
    entry; and when the result is not cut off, every disease with a
    nonzero count is returned with that probability, the ones with the
    largest count at 100.0. *)
Theorem predict_disease_probabilities (g : globals) (symptoms : list string) (top_n : Z) :
  exists r,
    returns (predict_disease symptoms top_n) g r /\
    (forall d, raw_score g symptoms d <= max_score g symptoms) /\
    (forall d p, (d, p) ∈ r ->
       1 <= raw_score g symptoms d /\
       1 <= max_score g symptoms /\
       p = Float.round
             (Float.mul (Float.int_true_div (raw_score g symptoms d) (max_score g symptoms))
                        (Float.of_int 100)) 1 /\
       (raw_score g symptoms d = max_score g symptoms -> p = Float.hundred) /\
       (exists k, 0 <= k <= 1000 /\ p = Float.tenths k) /\
       Float.leb Float.zero p = true /\ Float.leb p Float.hundred = true) /\
    (forall d p rest, r = (d, p) :: rest -> p = Float.hundred) /\
    (forall d, 1 <= raw_score g symptoms d -> 1 <= top_n ->
       1 <= max_score g symptoms /\
       exists d0 rest, r = (d0, Float.hundred) :: rest) /\
    (forall d, 1 <= raw_score g symptoms d -> Z.of_nat (length r) < top_n ->
       (d, Float.round
             (Float.mul (Float.int_true_div (raw_score g symptoms d) (max_score g symptoms))
                        (Float.of_int 100)) 1) ∈ r /\
       (raw_score g symptoms d = max_score g symptoms -> (d, Float.hundred) ∈ r)).
Proof.
  exists (slice_to (ranking g symptoms) top_n).
  split; [apply predict_disease_returns|].
  assert (Hscored : forall d, 1 <= raw_score g symptoms d ->
            (d, probability (max_score g symptoms) (raw_score g symptoms d))
              ∈ ranking g symptoms).
  { intros d Hd. rewrite ranking_perm. apply list_elem_of_fmap.
    exists (d, raw_score g symptoms d). split; [reflexivity|].
    assert (Hin : d ∈ associations g symptoms).
    { apply occurrences_pos. rewrite <- raw_score_occurrences. lia. }
    apply lookup_elem_of. rewrite lookup_tally, decide_True by exact Hin. reflexivity. }
  split; [intros d; apply raw_score_le_max|]. split; [|split; [|split]].
  - intros d p Hin. rewrite slice_to_take in Hin. apply subseteq_take in Hin.
    apply ranking_elem in Hin as (_ & Hrange & Hp).
    split; [lia|]. split; [lia|]. split; [exact Hp|]. split.
    + intros E. rewrite Hp, E. apply probability_max. lia.
    + destruct (probability_tenths _ _ Hrange) as (k & Hk & Hk').
      rewrite <- Hp in Hk'. split; [exists k; auto|].
      rewrite Hk'. split; apply FloatFacts.tenths_range, Hk.
  - intros d p rest E. rewrite slice_to_take in E.
    destruct (ranking g symptoms) as [|[d0 p0] rest0] eqn:Er.
    + rewrite take_nil in E. discriminate.
    + destruct (if top_n <? 0 then _ else _) as [|n]; [discriminate|].
      simpl in E. injection E as <- <- _. eapply ranking_head, Er.
  - intros d Hd Htop. pose proof (Hscored d Hd) as Hin.
    pose proof (raw_score_le_max g symptoms d) as Hmax. split; [lia|].
    destruct (ranking g symptoms) as [|[d0 p0] rest0] eqn:Er; [inversion Hin|].
    pose proof (ranking_head g symptoms d0 p0 rest0 Er) as ->.
    rewrite slice_to_take.
    destruct (top_n <? 0) eqn:Eneg; [apply Z.ltb_lt in Eneg; lia|].
    destruct (Z.to_nat top_n) as [|n] eqn:En; [lia|].
    exists d0, (take n rest0). reflexivity.
  - intros d Hd Hlen. pose proof (Hscored d Hd) as Hin.
    assert (Hall : slice_to (ranking g symptoms) top_n = ranking g symptoms).
    { rewrite slice_to_take in Hlen |- *.
      destruct (top_n <? 0) eqn:Eneg; [apply Z.ltb_lt in Eneg; lia|].
      rewrite length_take in Hlen. apply take_ge. lia. }
    rewrite Hall. split; [exact Hin|].
    intros E. pose proof (raw_score_le_max g symptoms d) as Hmax.
    rewrite <- (probability_max (max_score g symptoms)) by lia.
    rewrite <- E at 2. exact Hin.
Qed.

Lemma predict_disease_probabilities_witness :
  exists r,
    returns (predict_disease ["fever"; "cough"]%string 3) example_globals r /\
    (exists d0 rest, r = (d0, Float.hundred) :: rest) /\
    (forall d p, (d, p) ∈ r -> Float.leb p Float.hundred = true).
Proof.
  destruct (predict_disease_probabilities example_globals ["fever"; "cough"]%string 3)
    as (r & Hr & _ & Hp & _ & Hhead & _).
  exists r. split; [exact Hr|]. split.
  - apply (Hhead "flu"%string); [vm_compute; discriminate|lia].
  - intros d p Hin. apply Hp in Hin. apply Hin.
Defined.

(** C3: on the worked example, in whichever order the two symptoms and
    the two disease collections are listed, flu comes first at 100.0 and
    malaria and cold follow at 50.0, the one met first coming first; and
    in general two returned entries with equal probabilities stand in
    the order in which their diseases were first met. *)
Theorem predict_disease_example_and_ties :
  (forall s1 s2 s3 : bool,
     returns (predict_disease (listed s1 "fever" "cough") 3)
       (example_table (listed s2 "flu" "malaria") (listed s3 "flu" "cold"))
       (("flu"%string, Float.hundred)
          :: map (fun d => (d, Float.fifty)) (listed s1 "malaria" "cold"))) /\
  (forall g symptoms top_n r d1 p1 d2 p2,
     returns (predict_disease symptoms top_n) g r ->
     before (d1, p1) (d2, p2) r ->
     Float.eqb p1 p2 = true ->
     met_first d1 d2 (associations g symptoms)).
Proof.
  split.
  - intros [|] [|] [|]; vm_compute; reflexivity.
  - intros g symptoms top_n r d1 p1 d2 p2 Hr Hb Heq.
    pose proof (returns_inj _ _ _ _ Hr (predict_disease_returns g symptoms top_n)) as ->.
    rewrite slice_to_take in Hb. apply before_take in Hb.
    unfold ranking in Hb. apply sort_stable in Hb; [|exact Heq].
    apply before_map in Hb as ([a sa] & [b sb] & [= -> _] & [= -> _] & Hb).
    apply (map_before fst) in Hb. apply before_keys_tally in Hb. exact Hb.
Qed.

Lemma predict_disease_example_and_ties_witness :
  met_first "malaria" "cold" (associations example_globals ["fever"; "cough"]%string).
Proof.
  destruct predict_disease_example_and_ties as [Hex Hties].
  apply (Hties example_globals ["fever"; "cough"]%string 3
           [("flu", Float.hundred); ("malaria", Float.fifty); ("cold", Float.fifty)]%string
           "malaria"%string Float.fifty "cold"%string Float.fifty).
  - exact (Hex false false false).
  - exists [("flu"%string, Float.hundred)], [], []. reflexivity.
  - reflexivity.
Defined.

(** C5, as the code has it: the call never raises, whatever the
    symptoms and whatever the integer [top_n]; a negative [top_n] is a
    slice bound like any other and drops that many entries from the end
    of the full ranking. *)
Theorem predict_disease_never_raises (g : globals) (symptoms : list string) :
  exists full,
    forall top_n,
      returns (predict_disease symptoms top_n) g
        (take (if top_n <? 0
               then Z.to_nat (Z.of_nat (length full) + top_n)
               else Z.to_nat top_n) full).
Proof.
  exists (ranking g symptoms). intros top_n.
  rewrite <- slice_to_take. apply predict_disease_returns.
Qed.

(** C5 as stated fails: with [top_n = -1] the call returns normally. *)
Lemma predict_disease_negative_top_n_returns :
  fst (predict_disease ["fever"; "cough"]%string (-1) example_globals)
    = Normal [("flu", Float.hundred); ("malaria", Float.fifty)]%string /\
  forall e, fst (predict_disease ["fever"; "cough"]%string (-1) example_globals) <> Raised e.
Proof.
  assert (E : fst (predict_disease ["fever"; "cough"]%string (-1) example_globals)
              = Normal [("flu", Float.hundred); ("malaria", Float.fifty)]%string)
    by (vm_compute; reflexivity).
  split; [exact E|]. intros e. rewrite E. discriminate.
Qed.

(** ** Text extraction *)

Section Extraction.

Context {platform : Platform}.

Lemma match_vocabulary_returns (g : globals) (phrase : string) (rec : gset string) :
  returns (match_vocabulary phrase rec) g (add_match g rec phrase).
Proof.
  unfold match_vocabulary, add_match, first_match.
  eapply returns_bind; [apply returns_global|].
  induction (all_symptoms g) as [|symptom vocabulary IH]; cbn [for_in_break find].
  - apply returns_ret.
  - apply (returns_bind _ _ _
             (if matching g phrase symptom
              then Break ({[symptom]} ∪ rec) else Continue rec)).
    + apply (returns_bind _ _ _ (matching g phrase symptom)).
      * unfold matches. eapply returns_bind; [apply returns_global|apply returns_ret].
      * destruct (matching g phrase symptom); apply returns_ret.
    + destruct (matching g phrase symptom); [apply returns_ret|exact IH].
Qed.

Lemma tokens_returns (g : globals) (text : string) :
  returns (tokens text) g (words_of g text).
Proof.
  unfold tokens. eapply returns_bind; [apply returns_global|apply returns_ret].
Qed.

Lemma fold_left_map {A B C : Type} (f : C -> B -> C) (h : A -> B) (l : list A) : forall c,
  fold_left (fun c a => f c (h a)) l c = fold_left f (map h l) c.
Proof. induction l as [|a l IH]; intros c; simpl; [reflexivity|apply IH]. Qed.

Lemma fold_left_flat_map {A B C : Type} (f : C -> B -> C) (h : A -> list B) (l : list A) :
  forall c, fold_left (fun c a => fold_left f (h a) c) l c = fold_left f (flat_map h l) c.
Proof.
  induction l as [|a l IH]; intros c; simpl; [reflexivity|].
  rewrite fold_left_app. apply IH.
Qed.

(** The two passes compute [recognized] on the tokens of the text. *)
Theorem extract_symptoms_from_text_returns (g : globals) (text : string) :
  returns (extract_symptoms_from_text text) g (recognized g (words_of g text)).
Proof.
  unfold extract_symptoms_from_text, recognized.
  eapply returns_bind; [apply tokens_returns|].
  set (words := words_of g text). rewrite fold_left_app.
  eapply returns_bind.
  { apply (for_in_returns (add_match g)). intros w rec _. apply match_vocabulary_returns. }
  unfold phrases. rewrite <- fold_left_flat_map.
  apply (for_in_returns
           (fun rec i =>
              fold_left (add_match g)
                (map (fun j => Str.join " " (slice words i j))
                     (range (i + 1) (Nat.min (i + 5) (length words + 1)))) rec)).
  intros i rec _. rewrite <- fold_left_map.
  apply (for_in_returns (fun rec j => add_match g rec (Str.join " " (slice words i j)))).
  intros j rec' _. apply match_vocabulary_returns.
Qed.

Lemma elem_of_add_match (g : globals) (rec : gset string) (phrase s : string) :
  s ∈ add_match g rec phrase <-> s ∈ rec \/ first_match g phrase = Some s.
Proof.
  unfold add_match. destruct (first_match g phrase) as [s'|].
  - rewrite elem_of_union, elem_of_singleton. split.
    + intros [-> |H]; auto.
    + intros [H|[= ->]]; auto.
  - split; [auto|]. intros [H|H]; [exact H|discriminate].
Qed.

Lemma elem_of_fold_add_match (g : globals) (ps : list string) (s : string) :
  forall rec,
    s ∈ fold_left (add_match g) ps rec <->
    s ∈ rec \/ exists p, p ∈ ps /\ first_match g p = Some s.
Proof.
  induction ps as [|p ps IH]; intros rec; simpl.
  - split; [auto|]. intros [H|(p & Hp & _)]; [exact H|inversion Hp].
  - rewrite IH, elem_of_add_match. split.
    + intros [[H|H]|(q & Hq & H)]; auto.
      * right. exists p. split; [left|exact H].
      * right. exists q. split; [right; exact Hq|exact H].
    + intros [H|(q & Hq & H)]; auto.
      apply elem_of_cons in Hq as [-> |Hq]; auto.
      right. exists q. auto.
Qed.

Lemma elem_of_recognized (g : globals) (words : list string) (s : string) :
  s ∈ recognized g words <->
  exists p, (p ∈ words \/ p ∈ phrases words) /\ first_match g p = Some s.
Proof.
  unfold recognized. rewrite elem_of_fold_add_match. split.
  - intros [H|(p & Hp & H)]; [set_solver|].
    exists p. rewrite elem_of_app in Hp. auto.
  - intros (p & Hp & H). right. exists p. rewrite elem_of_app. auto.
Qed.

(** A first match is a symptom of the vocabulary that passes the test,
    and no earlier one does. *)
Lemma first_match_Some (g : globals) (phrase s : string) :
  first_match g phrase = Some s <->
  exists before_s after_s,
    all_symptoms g = before_s ++ s :: after_s /\
    matching g phrase s = true /\
    Forall (fun s' => matching g phrase s' = false) before_s.
Proof.
  unfold first_match. induction (all_symptoms g) as [|s0 l IH]; simpl.
  - split; [discriminate|]. intros (l1 & l2 & E & _). destruct l1; discriminate.
  - destruct (matching g phrase s0) eqn:E0.
    + split.
      * intros [= ->]. exists [], l. auto.
      * intros (l1 & l2 & E & Hm & Hall). destruct l1 as [|s1 l1].
        -- injection E as -> _. reflexivity.
        -- injection E as <- _. apply Forall_cons in Hall as [Hs0 _]. congruence.
    + rewrite IH. split.
      * intros (l1 & l2 & -> & Hm & Hall). exists (s0 :: l1), l2. repeat split; auto.
      * intros (l1 & l2 & E & Hm & Hall). destruct l1 as [|s1 l1].
        -- injection E as -> _. congruence.
        -- injection E as <- ->. apply Forall_cons in Hall as [_ Hall]. eauto.
Qed.

Lemma first_match_vocabulary (g : globals) (phrase s : string) :
  first_match g phrase = Some s -> s ∈ all_symptoms g /\ matching g phrase s = true.
Proof.
  intros (l1 & l2 & -> & Hm & _)%first_match_Some. split; [|exact Hm].
  apply elem_of_app. right. left.
Qed.

(** If some symptom of the vocabulary passes the test, there is a first
    one. *)
Lemma first_match_exists (g : globals) (phrase s : string) :
  s ∈ all_symptoms g -> matching g phrase s = true ->
  exists s', first_match g phrase = Some s'.
Proof.
  unfold first_match. intros Hin Hm.
  destruct (find (matching g phrase) (all_symptoms g)) as [s'|] eqn:E; [eauto|].
  exfalso. apply list_elem_of_In in Hin.
  pose proof (find_none _ _ E _ Hin) as H. congruence.
Qed.

End Extraction.

(** ** Windows *)

Section Windows.

Lemma join_singleton (w : string) : Str.join " " [w] = w.
Proof. reflexivity. Qed.

Lemma elem_of_range (a b j : nat) : j ∈ range a b <-> (a <= j < b)%nat.
Proof. unfold range. rewrite list_elem_of_In, in_seq. lia. Qed.

(** The second pass tests exactly the windows of 1 to 4 tokens. *)
Lemma elem_of_phrases (words : list string) (p : string) :
  p ∈ phrases words <-> exists n, (1 <= n <= 4)%nat /\ window words n p.
Proof.
  unfold phrases, window. rewrite list_elem_of_In, in_flat_map. split.
  - intros (i & Hi & Hp). apply list_elem_of_In, elem_of_range in Hi.
    apply in_map_iff in Hp as (j & <- & Hj). apply list_elem_of_In, elem_of_range in Hj.
    exists (j - i)%nat. split; [lia|]. exists i. split; [lia|reflexivity].
  - intros (n & Hn & i & Hi & ->). exists i. split.
    + apply list_elem_of_In, elem_of_range. lia.
    + apply in_map_iff. exists (i + n)%nat. split.
      * unfold slice. replace (i + n - i)%nat with n by lia. reflexivity.
      * apply list_elem_of_In, elem_of_range. lia.
Qed.

Lemma elem_of_windows_of_size (words : list string) (n : nat) (p : string) :
  p ∈ Spec.windows_of_size words n <-> window words n p.
Proof.
  unfold Spec.windows_of_size, window. rewrite list_elem_of_In, in_map_iff. split.
  - intros (i & <- & Hi). apply in_seq in Hi. exists i. split; [lia|reflexivity].
  - intros (i & Hi & ->). exists i. split; [reflexivity|]. apply in_seq. lia.
Qed.

(** The windows of one token are the tokens. *)
Lemma window_1 (words : list string) (p : string) : window words 1 p <-> p ∈ words.
Proof.
  unfold window. split.
  - intros (i & Hi & ->).
    destruct (drop i words) as [|w rest] eqn:E.
    + apply (f_equal length) in E. rewrite length_drop in E. simpl in E. lia.
    + change (Str.join " " (take 1 (w :: rest))) with w.
      apply (subseteq_drop i). rewrite E. left.
  - intros (i & Hi)%list_elem_of_lookup. exists i.
    pose proof (lookup_lt_Some _ _ _ Hi). split; [lia|].
    rewrite (drop_S _ _ _ Hi). reflexivity.
Qed.

End Windows.

(** ** The specification's passes *)

Section Refinement.

Context {platform : Platform}.

Variable test : string -> string -> bool.
Variable vocabulary : list string.

Lemma elem_of_match_phrase (phrase s : string) :
  s ∈ Spec.match_phrase test vocabulary phrase <-> find (test phrase) vocabulary = Some s.
Proof.
  unfold Spec.match_phrase. destruct (find (test phrase) vocabulary) as [s'|].
  - rewrite elem_of_singleton. split; [intros ->; reflexivity|intros [= ->]; reflexivity].
  - split; [set_solver|discriminate].
Qed.

Lemma elem_of_union_match (ps : list string) (s : string) :
  s ∈ ⋃ (map (Spec.match_phrase test vocabulary) ps) <->
  exists p, p ∈ ps /\ find (test p) vocabulary = Some s.
Proof.
  rewrite elem_of_union_list. split.
  - intros (X & HX & Hs). apply list_elem_of_fmap in HX as (p & -> & Hp).
    exists p. split; [exact Hp|]. apply elem_of_match_phrase, Hs.
  - intros (p & Hp & Hs). exists (Spec.match_phrase test vocabulary p). split.
    + apply list_elem_of_fmap. eauto.
    + apply elem_of_match_phrase, Hs.
Qed.

Lemma elem_of_recognize_with (words : list string) (s : string) :
  s ∈ Spec.recognize_with test vocabulary words <->
  exists p, (p ∈ words \/ exists n, (2 <= n <= 4)%nat /\ window words n p)
            /\ find (test p) vocabulary = Some s.
Proof.
  unfold Spec.recognize_with, Spec.single_word, Spec.multi_word.
  rewrite elem_of_union, elem_of_union_match, elem_of_union_list. split.
  - intros [(p & Hp & Hs)|(X & HX & Hs)]; [eauto|].
    apply list_elem_of_fmap in HX as (n & -> & Hn).
    apply elem_of_union_match in Hs as (p & Hp & Hs).
    apply elem_of_windows_of_size in Hp.
    exists p. split; [|exact Hs]. right. exists n. split; [|exact Hp].
    repeat (apply elem_of_cons in Hn as [-> |Hn]; [lia|]). inversion Hn.
  - intros (p & [Hp|(n & Hn & Hp)] & Hs); [left; eauto|].
    right.
    exists (⋃ (map (Spec.match_phrase test vocabulary) (Spec.windows_of_size words n))). split.
    + apply list_elem_of_fmap. exists n. split; [reflexivity|].
      assert (n = 2 \/ n = 3 \/ n = 4)%nat as [-> |[-> | ->]] by lia;
        rewrite !elem_of_cons; auto.
    + apply elem_of_union_match. exists p. split; [|exact Hs].
      apply elem_of_windows_of_size, Hp.
Qed.

End Refinement.

Section RefinementOfCode.

Context {platform : Platform}.

(** The code's two passes recognize what the single-word pass and the
    pass over the windows of 2 to 4 tokens recognize with the code's
    test. *)
Lemma recognized_recognize_with (g : globals) (words : list string) :
  recognized g words = Spec.recognize_with (matching g) (all_symptoms g) words.
Proof.
  apply set_eq. intros s. rewrite elem_of_recognized, elem_of_recognize_with.
  unfold first_match.
  split; intros (p & Hp & Hs); exists p; (split; [|exact Hs]).
  - destruct Hp as [Hp|Hp]; [auto|].
    apply elem_of_phrases in Hp as (n & Hn & Hp).
    destruct (decide (n = 1%nat)) as [-> |Hne].
    + left. apply window_1, Hp.
    + right. exists n. split; [lia|exact Hp].
  - destruct Hp as [Hp|(n & Hn & Hp)]; [auto|].
    right. apply elem_of_phrases. exists n. split; [lia|exact Hp].
Qed.

(** Two tests that agree on the vocabulary find the same first match. *)
Lemma find_agree (test1 test2 : string -> bool) (vocabulary : list string) :
  (forall s, s ∈ vocabulary -> test1 s = test2 s) ->
  find test1 vocabulary = find test2 vocabulary.
Proof.
  induction vocabulary as [|s l IH]; intros H; [reflexivity|].
  cbn [find]. rewrite (H s) by left. rewrite IH; [reflexivity|].
  intros s' Hs'. apply H. right. exact Hs'.
Qed.

(** Where the code's test and the specification's test agree, the code
    recognizes what the specification's algorithm recognizes. *)
Lemma recognized_spec (g : globals) (words : list string) :
  (forall n p s, (1 <= n <= 4)%nat -> window words n p -> s ∈ all_symptoms g ->
                 matching g p s = Spec.matching g p s) ->
  recognized g words = Spec.recognize g words.
Proof.
  intros Hagree. rewrite recognized_recognize_with. unfold Spec.recognize.
  apply set_eq. intros s. rewrite !elem_of_recognize_with.
  assert (Hfind : forall p, (p ∈ words \/ exists n, (2 <= n <= 4)%nat /\ window words n p) ->
            find (matching g p) (all_symptoms g) = find (Spec.matching g p) (all_symptoms g)).
  { intros p Hp. apply find_agree. intros s' Hs'.
    destruct Hp as [Hp|(n & Hn & Hp)].
    - apply (Hagree 1%nat); [lia|apply window_1, Hp|exact Hs'].
    - apply (Hagree n); [lia|exact Hp|exact Hs']. }
  split; intros (p & Hp & Hs); exists p; (split; [exact Hp|]).
  - rewrite <- (Hfind p Hp). exact Hs.
  - rewrite (Hfind p Hp). exact Hs.
Qed.

(** The two tests agree on a phrase that lower-casing leaves as it is
    when the synonyms of the symptom are stored in lower case. *)
Lemma matching_agree (g : globals) (p s : string) :
  str_lower p = p ->
  Forall (fun synonym => str_lower synonym = synonym)
         (default [] (symptom_synonyms g !! s)) ->
  matching g p s = Spec.matching g p s.
Proof.
  intros Hp Hsyn. unfold matching, Spec.matching, Spec.equal_ignoring_case.
  rewrite Hp. f_equal.
  induction Hsyn as [|synonym l Hl _ IH]; [reflexivity|].
  cbn [existsb]. rewrite Hl, <- IH.
  destruct (String.eqb_spec p synonym) as [-> |Hne].
  - apply bool_decide_eq_true. left.
  - cbn [orb]. apply bool_decide_ext. rewrite elem_of_cons. tauto.
Qed.

End RefinementOfCode.

(** C9. The second pass of the code also visits the windows of one
    token, but such a window is the token itself, which the first pass
    has already tested, so it adds nothing: the code recognizes what the
    single-word pass and the pass over the windows of 2 to 4 tokens
    recognize with the code's own test. Where that test agrees with the
    case-insensitive test of the specification on the windows of the
    text, the result is that of the specification's algorithm. It is
    not in general: the code compares the synonyms as they are stored,
    and with "Runny Nose" stored for "rhinorrhea" the text "runny nose"
    gives nothing in the code and "rhinorrhea" in the specification's
    algorithm. *)
Theorem extraction_refines_spec :
  (forall (platform : Platform) (g : globals) (words : list string) (i : nat)
          (rec : gset string),
     (i < length words)%nat ->
     fold_left (add_match g) words ∅ ⊆ rec ->
     add_match g rec (Str.join " " (slice words i (i + 1))) = rec) /\
  (forall (platform : Platform) (g : globals) (text : string),
     returns (extract_symptoms_from_text text) g
       (Spec.recognize_with (matching g) (all_symptoms g) (words_of g text))) /\
  (forall (platform : Platform) (g : globals) (text : string),
     (forall n p s, (1 <= n <= 4)%nat -> window (words_of g text) n p ->
                    s ∈ all_symptoms g -> matching g p s = Spec.matching g p s) ->
     returns (extract_symptoms_from_text text) g (Spec.recognize g (words_of g text))) /\
  returns (extract_symptoms_from_text (platform := plain_platform) "runny nose")
    capital_globals ∅ /\
  Spec.recognize (platform := plain_platform) capital_globals
    (words_of (platform := plain_platform) capital_globals "runny nose")
  = {[ "rhinorrhea"%string ]}.
Proof.
  split; [|split; [|split; [|split]]].
  - intros platform g words i rec Hi Hsub.
    assert (Hw : Str.join " " (slice words i (i + 1)) ∈ words).
    { apply window_1. exists i. split; [lia|]. unfold slice.
      replace (i + 1 - i)%nat with 1%nat by lia. reflexivity. }
    apply set_eq. intros s. rewrite elem_of_add_match. split; [|auto].
    intros [H|H]; [exact H|]. apply Hsub.
    apply elem_of_fold_add_match. right. eauto.
  - intros platform g text. rewrite <- recognized_recognize_with.
    apply extract_symptoms_from_text_returns.
  - intros platform g text Hagree. rewrite <- (recognized_spec g _ Hagree).
    apply extract_symptoms_from_text_returns.
  - vm_compute. reflexivity.
  - vm_compute. reflexivity.
Qed.

Lemma extraction_refines_spec_witness :
  returns (extract_symptoms_from_text (platform := plain_platform) "I have a Runny Nose!")
    nose_globals
    (Spec.recognize (platform := plain_platform) nose_globals
       (words_of (platform := plain_platform) nose_globals "I have a Runny Nose!")).
Proof.
  destruct extraction_refines_spec as (_ & _ & H & _).
  apply (H plain_platform nose_globals "I have a Runny Nose!"%string).
  intros n p s Hn Hw Hs. apply matching_agree.
  - assert (Hwords : words_of (platform := plain_platform) nose_globals "I have a Runny Nose!"
                     = ["runny"; "nose"]%string) by (vm_compute; reflexivity).
    rewrite Hwords in Hw. destruct Hw as (i & Hi & ->). cbn [length] in Hi.
    assert (Hp : Str.join " " (take n (drop i ["runny"; "nose"]%string))
                 ∈ ["runny"; "nose"; "runny nose"]%string).
    { assert (n = 1 \/ n = 2 \/ n = 3 \/ n = 4)%nat as [-> |[-> |[-> | ->]]] by lia;
        destruct i as [|[|i]]; try lia; vm_compute; repeat constructor. }
    revert Hp. generalize (Str.join " " (take n (drop i ["runny"; "nose"]%string))).
    intros p Hp.
    repeat (apply elem_of_cons in Hp as [-> |Hp]; [reflexivity|]). inversion Hp.
  - repeat (apply elem_of_cons in Hs as [-> |Hs]; [vm_compute; repeat constructor|]).
    inversion Hs.
Defined.

(** ** preprocess_symptoms *)

Section Preprocess.

Context {platform : Platform}.

Theorem preprocess_symptoms_returns (g : globals) (selected : list string) (text : string) :
  returns (preprocess_symptoms selected text) g (set_to_list (processed g selected text)).
Proof.
  unfold preprocess_symptoms, processed.
  eapply returns_bind; [|apply returns_ret].
  destruct (Str.truthy text).
  - eapply returns_bind; [apply extract_symptoms_from_text_returns|apply returns_ret].
  - apply returns_ret.
Qed.

Lemma elem_of_set_to_list (X : gset string) (x : string) : x ∈ set_to_list X <-> x ∈ X.
Proof. rewrite (set_to_list_perm X). apply elem_of_elements. Qed.

Lemma NoDup_set_to_list (X : gset string) : NoDup (set_to_list X).
Proof. rewrite (set_to_list_perm X). apply NoDup_elements. Qed.

Lemma recognized_vocabulary (g : globals) (words : list string) (s : string) :
  s ∈ recognized g words -> s ∈ all_symptoms g.
Proof.
  intros (p & _ & H)%elem_of_recognized. apply first_match_vocabulary in H. apply H.
Qed.

Lemma recognized_nil (g : globals) : recognized g [] = ∅.
Proof. reflexivity. Qed.

Lemma words_of_stop (g : globals) (text : string) :
  Forall (fun w => w ∈ stop_words g)
         (word_tokenize (re_sub_punctuation (str_lower text))) ->
  words_of g text = [].
Proof.
  unfold words_of. intros H.
  induction H as [|w ws Hw _ IH]; [reflexivity|].
  rewrite filter_cons, decide_False by (intros Hn; apply Hn, Hw). exact IH.
Qed.

End Preprocess.

(** ** Properties of the symptom extractor *)

(** C4, as the code has it: what [extract_symptoms_from_text]
    recognizes always belongs to the vocabulary, and every name that
    [preprocess_symptoms] returns is either one of the selected symptoms,
    passed through as given, or a symptom of the vocabulary. *)
Theorem preprocess_symptoms_selected_or_vocabulary {platform : Platform}
    (g : globals) (selected : list string) (text : string) :
  (exists rec,
     returns (extract_symptoms_from_text text) g rec /\
     forall s, s ∈ rec -> s ∈ all_symptoms g) /\
  (exists r,
     returns (preprocess_symptoms selected text) g r /\
     forall s, s ∈ r -> s ∈ selected \/ s ∈ all_symptoms g).
Proof.
  split.
  - exists (recognized g (words_of g text)).
    split; [apply extract_symptoms_from_text_returns|].
    intros s. apply recognized_vocabulary.
  - exists (set_to_list (processed g selected text)).
    split; [apply preprocess_symptoms_returns|].
    intros s Hs. apply elem_of_set_to_list in Hs. unfold processed in Hs.
    destruct (Str.truthy text).
    + apply elem_of_union in Hs as [Hs|Hs].
      * left. apply elem_of_list_to_set in Hs. exact Hs.
      * right. eapply recognized_vocabulary, Hs.
    + left. apply elem_of_list_to_set in Hs. exact Hs.
Qed.

Lemma preprocess_symptoms_selected_or_vocabulary_witness :
  "rhinorrhea"%string ∈ ["bogus"]%string \/ "rhinorrhea"%string ∈ all_symptoms nose_globals.
Proof.
  destruct (preprocess_symptoms_selected_or_vocabulary (platform := plain_platform)
              nose_globals ["bogus"]%string "a Runny nose")
    as [_ (r & Hr & Hin)].
  apply Hin.
  assert (Hr' : returns (preprocess_symptoms ["bogus"]%string "a Runny nose") nose_globals
                  ["rhinorrhea"; "bogus"]%string) by (vm_compute; reflexivity).
  rewrite (returns_inj _ _ _ _ Hr Hr'). left.
Defined.

(** C4 as stated fails: a selected name outside the vocabulary is
    returned as it is. *)
Lemma preprocess_symptoms_outside_vocabulary :
  returns (preprocess_symptoms (platform := plain_platform) ["bogus"]%string "")
    nose_globals ["bogus"]%string /\
  "bogus"%string ∉ all_symptoms nose_globals.
Proof.
  split; [vm_compute; reflexivity|].
  intros H. repeat (apply elem_of_cons in H as [H|H]; [discriminate|]). inversion H.
Qed.

(** C7: when the free text is empty, or when every token of the cleaned
    text is a stop word (which covers a text without any token: blank,
    or punctuation only), the result lists exactly the selected symptoms,
    each once, without any check against the vocabulary; no selection
    and no text give the empty list, and ["fever"] alone gives
    ["fever"]. *)
Theorem preprocess_symptoms_without_text {platform : Platform}
    (g : globals) (selected : list string) (text : string) :
  (text = ""%string \/
   Forall (fun w => w ∈ stop_words g)
          (word_tokenize (re_sub_punctuation (str_lower text))) ->
   exists r,
     returns (preprocess_symptoms selected text) g r /\
     (forall s, s ∈ r <-> s ∈ selected) /\ NoDup r) /\
  returns (preprocess_symptoms [] "") g [] /\
  returns (preprocess_symptoms ["fever"%string] "") g ["fever"%string].
Proof.
  split; [|split].
  - intros Htext. exists (set_to_list (processed g selected text)).
    split; [apply preprocess_symptoms_returns|]. split; [|apply NoDup_set_to_list].
    intros s. rewrite elem_of_set_to_list.
    assert (processed g selected text = list_to_set selected) as ->.
    { unfold processed. destruct Htext as [-> |Hstop]; [reflexivity|].
      destruct (Str.truthy text); [|reflexivity].
      rewrite (words_of_stop _ _ Hstop), recognized_nil. apply union_empty_r_L. }
    apply elem_of_list_to_set.
  - pose proof (preprocess_symptoms_returns g [] "") as H.
    unfold processed in H. simpl in H.
    pose proof (set_to_list_perm (∅ : gset string)) as Hp.
    rewrite elements_empty in Hp. apply Permutation_nil_r in Hp. rewrite Hp in H. exact H.
  - pose proof (preprocess_symptoms_returns g ["fever"%string] "") as H.
    unfold processed in H. simpl in H.
    pose proof (set_to_list_perm ({["fever"%string]} ∪ ∅ : gset string)) as Hp.
    rewrite union_empty_r_L, elements_singleton in Hp.
    apply Permutation_singleton_r in Hp.
    rewrite union_empty_r_L in H. rewrite Hp in H. exact H.
Qed.

(** On the plain platform a text without word characters has no token. *)
Lemma split_go_spaces (s : string) :
  all_chars Plain.is_space s = true -> Plain.split_go s [] = [].
Proof.
  induction s as [|c s IH]; cbn [all_chars Plain.split_go]; [reflexivity|].
  intros [Hc Hs]%andb_prop. rewrite Hc. cbn [Plain.flush]. apply IH, Hs.
Qed.

Lemma strip_punctuation_spaces (s : string) :
  all_chars (fun c => negb (Plain.is_word c)) s = true ->
  all_chars Plain.is_space (Plain.strip_punctuation (Plain.lower s)) = true.
Proof.
  induction s as [|c s IH]; cbn [all_chars Plain.strip_punctuation Plain.lower]; [reflexivity|].
  intros [Hc Hs]%andb_prop. apply negb_true_iff in Hc.
  rewrite (IH Hs), andb_true_r.
  assert (Plain.lower_char c = c) as ->.
  { unfold Plain.lower_char. unfold Plain.is_word in Hc. cbv zeta in Hc |- *.
    destruct ((65 <=? N_of_ascii c)%N && (N_of_ascii c <=? 90)%N) eqn:E; [|reflexivity].
    rewrite orb_true_r in Hc. simpl in Hc. discriminate. }
  rewrite Hc. cbn [orb]. destruct (Plain.is_space c) eqn:E; [exact E|reflexivity].
Qed.

Lemma plain_tokens_punctuation (s : string) :
  all_chars (fun c => negb (Plain.is_word c)) s = true ->
  word_tokenize (Platform := plain_platform) (Plain.strip_punctuation (Plain.lower s)) = [].
Proof. intros H. apply split_go_spaces, strip_punctuation_spaces, H. Qed.

Lemma preprocess_symptoms_without_text_witness :
  exists r,
    returns (preprocess_symptoms (platform := plain_platform)
               ["fever"; "made up"]%string " ?! ... ") nose_globals r /\
    (forall s, s ∈ r <-> s ∈ ["fever"; "made up"]%string) /\ NoDup r.
Proof.
  destruct (preprocess_symptoms_without_text (platform := plain_platform)
              nose_globals ["fever"; "made up"]%string " ?! ... ") as [H _].
  apply H. right.
  rewrite plain_tokens_punctuation by reflexivity. constructor.
Defined.

(** C8: two runs of [preprocess_symptoms] on the same selection and the
    same text, with the same library functions, return the same set of
    names, even when the two processes list their sets in different
    orders; and neither it, nor
    [extract_symptoms_from_text], nor [predict_disease], nor
    [get_disease_info] changes any of the module-level tables. *)
Theorem extraction_deterministic_and_read_only (p1 p2 : Platform)
    (g : globals) (selected : list string) (text : string) :
  (forall s, @str_lower p1 s = @str_lower p2 s) ->
  (forall s, @re_sub_punctuation p1 s = @re_sub_punctuation p2 s) ->
  (forall s, @word_tokenize p1 s = @word_tokenize p2 s) ->
  (forall w, @lemmatize p1 w = @lemmatize p2 w) ->
  (exists r1 r2,
     @preprocess_symptoms p1 selected text g = (Normal r1, g) /\
     @preprocess_symptoms p2 selected text g = (Normal r2, g) /\
     (forall s, s ∈ r1 <-> s ∈ r2)) /\
  snd (@extract_symptoms_from_text p1 text g) = g /\
  (forall symptoms top_n, snd (predict_disease symptoms top_n g) = g) /\
  (forall name, snd (get_disease_info name g) = g).
Proof.
  intros Hlow Hsub Htok Hlem.
  assert (Hwords : @words_of p1 g text = @words_of p2 g text).
  { unfold words_of. rewrite Hlow, Hsub, Htok. apply map_ext. exact Hlem. }
  assert (Hadd : forall rec p, @add_match p1 g rec p = @add_match p2 g rec p).
  { intros rec p. unfold add_match, first_match.
    rewrite (find_agree (@matching p1 g p) (@matching p2 g p)); [reflexivity|].
    intros s _. unfold matching. rewrite Hlow. reflexivity. }
  assert (Hrec : forall words, @recognized p1 g words = @recognized p2 g words).
  { intros words. unfold recognized. generalize (∅ : gset string).
    induction (words ++ phrases words) as [|p ps IH]; intros rec; [reflexivity|].
    cbn [fold_left]. rewrite Hadd. apply IH. }
  split; [|split; [|split]].
  - exists (@set_to_list p1 (@processed p1 g selected text)),
           (@set_to_list p2 (@processed p2 g selected text)).
    split; [apply preprocess_symptoms_returns|].
    split; [apply preprocess_symptoms_returns|].
    intros s. rewrite !elem_of_set_to_list. unfold processed. rewrite Hwords, Hrec.
    reflexivity.
  - rewrite (extract_symptoms_from_text_returns g text). reflexivity.
  - intros symptoms top_n. rewrite (predict_disease_returns g symptoms top_n). reflexivity.
  - intros name. reflexivity.
Qed.

Lemma extraction_deterministic_and_read_only_witness :
  exists r1 r2,
    @preprocess_symptoms plain_platform ["fever"]%string "a runny nose and a headache"
      nose_globals = (Normal r1, nose_globals) /\
    @preprocess_symptoms reversed_platform ["fever"]%string "a runny nose and a headache"
      nose_globals = (Normal r2, nose_globals) /\
    (forall s, s ∈ r1 <-> s ∈ r2).
Proof.
  destruct (extraction_deterministic_and_read_only plain_platform reversed_platform
              nose_globals ["fever"]%string "a runny nose and a headache") as [H _].
  - reflexivity.
  - reflexivity.
  - reflexivity.
  - reflexivity.
  - exact H.
Defined.

(** C10: [get_disease_info] returns the stored dictionary for a name of
    the table and [None], without raising, for any other name. *)
Theorem get_disease_info_lookup (g : globals) (disease_name : string) :
  returns (get_disease_info disease_name) g (diseases_data g !! disease_name) /\
  (disease_name ∉ dom (diseases_data g) -> returns (get_disease_info disease_name) g None) /\
  (forall info,
     diseases_data g !! disease_name = Some info ->
     returns (get_disease_info disease_name) g (Some info)).
Proof.
  assert (H : returns (get_disease_info disease_name) g (diseases_data g !! disease_name)).
  { unfold get_disease_info. eapply returns_bind; [apply returns_global|apply returns_ret]. }
  split; [exact H|]. split.
  - intros Hdom. apply not_elem_of_dom in Hdom. rewrite Hdom in H. exact H.
  - intros info Hinfo. rewrite Hinfo in H. exact H.
Qed.

Lemma get_disease_info_lookup_witness :
  returns (get_disease_info "measles") info_globals None /\
  returns (get_disease_info "flu") info_globals
    (Some {[ "description" := InfoText "a viral infection";
             "precautions" := InfoList ["rest"; "fluids"] ]})%string.
Proof.
  split.
  - apply (get_disease_info_lookup info_globals "measles").
    apply not_elem_of_dom. reflexivity.
  - apply (get_disease_info_lookup info_globals "flu"). reflexivity.
Defined.

(** ** Text matching *)

(** C6 at a synonym stored with capitals. The code lower-cases the
    text and, for the comparison, the canonical name, but compares the
    synonyms as they are stored: with "Runny Nose" registered for
    "rhinorrhea", a phrase that is equal to the synonym without regard
    to case, the texts "runny nose" and "I have a Runny Nose!" resolve
    to nothing, where the name "Headache" is found in "HEADACHE" and the
    synonym stored as "runny nose" is found in both texts. *)
Theorem synonym_case_not_folded :
  "Runny Nose"%string
    ∈ default [] (symptom_synonyms capital_globals !! "rhinorrhea"%string) /\
  Spec.equal_ignoring_case (platform := plain_platform) "runny nose" "Runny Nose" = true /\
  returns (extract_symptoms_from_text (platform := plain_platform) "runny nose")
    capital_globals ∅ /\
  returns (extract_symptoms_from_text (platform := plain_platform) "I have a Runny Nose!")
    capital_globals ∅ /\
  returns (extract_symptoms_from_text (platform := plain_platform) "HEADACHE")
    capital_globals {[ "Headache"%string ]} /\
  returns (extract_symptoms_from_text (platform := plain_platform) "runny nose")
    nose_globals {[ "rhinorrhea"%string ]} /\
  returns (extract_symptoms_from_text (platform := plain_platform) "I have a Runny Nose!")
    nose_globals {[ "rhinorrhea"%string ]}.
Proof.
  split; [vm_compute; left|].
  repeat split; vm_compute; reflexivity.
Qed.

(** * Further properties *)

(** ** predict_disease: which diseases come back *)

Section Diseases.
Import Float FloatFacts Dict DictFacts.

Lemma associations_app (g : globals) (s1 s2 : list string) :
  associations g (s1 ++ s2) = associations g s1 ++ associations g s2.
Proof. unfold associations. apply flat_map_app. Qed.

Lemma elem_of_associations (g : globals) (symptoms : list string) (d : string) :
  d ∈ associations g symptoms <->
  exists s ds, s ∈ symptoms /\ symptom_disease_map g !! s = Some ds /\ d ∈ ds.
Proof.
  unfold associations. rewrite list_elem_of_In, in_flat_map. split.
  - intros (s & Hs & Hd). apply list_elem_of_In in Hs, Hd.
    destruct (symptom_disease_map g !! s) as [ds|] eqn:E; [|inversion Hd]. eauto.
  - intros (s & ds & Hs & E & Hd). exists s. rewrite E.
    split; apply list_elem_of_In; assumption.
Qed.

Lemma associations_filter_known (g : globals) (symptoms : list string) :
  associations g (filter (fun s => s ∈ dom (symptom_disease_map g)) symptoms)
  = associations g symptoms.
Proof.
  induction symptoms as [|s symptoms IH]; [reflexivity|].
  rewrite filter_cons. destruct (decide (s ∈ dom (symptom_disease_map g))) as [Hs|Hs].
  - change (s :: ?l) with ([s] ++ l). rewrite !associations_app, IH. reflexivity.
  - rewrite IH. apply not_elem_of_dom in Hs.
    unfold associations at 2. simpl. rewrite Hs. reflexivity.
Qed.

Lemma ranking_associations (g : globals) (s1 s2 : list string) :
  associations g s1 = associations g s2 -> ranking g s1 = ranking g s2.
Proof. unfold ranking. intros ->. reflexivity. Qed.

Lemma keys_ranking (g : globals) (symptoms : list string) :
  map fst (ranking g symptoms) ≡ₚ map fst (tally (associations g symptoms)).
Proof.
  rewrite ranking_perm. rewrite map_map.
  apply Permutation_refl'. apply map_ext. intros [d s]. reflexivity.
Qed.

Lemma NoDup_keys_ranking (g : globals) (symptoms : list string) :
  NoDup (map fst (ranking g symptoms)).
Proof. rewrite keys_ranking. apply NoDup_keys_tally. Qed.

Lemma elem_of_keys_tally (l : list string) (d : string) : d ∈ map fst (tally l) <-> d ∈ l.
Proof.
  split.
  - intros ([d' v] & -> & Hin)%list_elem_of_fmap. apply elem_of_tally in Hin. apply Hin.
  - intros Hd. apply list_elem_of_fmap. exists (d, occurrences d l). split; [reflexivity|].
    apply lookup_elem_of. rewrite lookup_tally, decide_True by exact Hd. reflexivity.
Qed.

Lemma elem_of_keys_ranking (g : globals) (symptoms : list string) (d : string) :
  d ∈ map fst (ranking g symptoms) <-> d ∈ associations g symptoms.
Proof. rewrite keys_ranking. apply elem_of_keys_tally. Qed.

(** As many entries as there are different diseases. *)
Lemma length_ranking (g : globals) (symptoms : list string) :
  length (ranking g symptoms) = size (list_to_set (associations g symptoms) : gset string).
Proof.
  rewrite <- (length_map fst), keys_ranking.
  rewrite <- (size_list_to_set (C := gset string)) by apply NoDup_keys_tally.
  f_equal. apply set_eq. intros d. rewrite !elem_of_list_to_set. apply elem_of_keys_tally.
Qed.

Lemma ranking_nil_iff (g : globals) (symptoms : list string) :
  ranking g symptoms = [] <-> associations g symptoms = [].
Proof.
  rewrite <- tally_nil_iff. split; intros H.
  - pose proof (keys_ranking g symptoms) as Hp. rewrite H in Hp.
    apply Permutation_nil_l in Hp. symmetry in Hp. apply map_eq_nil in Hp. exact Hp.
  - unfold ranking. rewrite H. reflexivity.
Qed.

End Diseases.

(** Symptoms that are not keys of the association table contribute
    nothing: dropping them from the input changes neither the result nor
    the outcome of the call. *)
Theorem predict_disease_ignores_unknown (g : globals) (symptoms : list string) (top_n : Z) :
  predict_disease (filter (fun s => s ∈ dom (symptom_disease_map g)) symptoms) top_n g
  = predict_disease symptoms top_n g.
Proof.
  rewrite (predict_disease_returns g symptoms top_n).
  rewrite (predict_disease_returns g _ top_n).
  rewrite (ranking_associations g _ symptoms); [reflexivity|].
  apply associations_filter_known.
Qed.

(** With [top_n >= 1] the result is empty exactly when no given symptom
    has a disease in the table: unknown symptoms, symptoms with an empty
    entry, or no symptom at all. *)
Theorem predict_disease_empty_iff (g : globals) (symptoms : list string) (top_n : Z)
    (r : list (string * spec_float)) :
  1 <= top_n ->
  returns (predict_disease symptoms top_n) g r ->
  (r = [] <->
   forall s ds, s ∈ symptoms -> symptom_disease_map g !! s = Some ds -> ds = []).
Proof.
  intros Hn Hr.
  pose proof (returns_inj _ _ _ _ Hr (predict_disease_returns g symptoms top_n)) as ->.
  rewrite slice_to_take.
  replace (top_n <? 0) with false by (symmetry; apply Z.ltb_ge; lia).
  assert (Hnil : take (Z.to_nat top_n) (ranking g symptoms) = [] <-> ranking g symptoms = []).
  { destruct (ranking g symptoms) as [|x l]; [rewrite take_nil; tauto|].
    destruct (Z.to_nat top_n) as [|n] eqn:E; [lia|]. simpl. split; discriminate. }
  rewrite Hnil, ranking_nil_iff. split.
  - intros Ha s ds Hs Hds. destruct ds as [|d ds]; [reflexivity|]. exfalso.
    assert (Hd : d ∈ associations g symptoms).
    { apply elem_of_associations. exists s, (d :: ds). split; [exact Hs|]. split; [exact Hds|left]. }
    rewrite Ha in Hd. inversion Hd.
  - intros Hall. destruct (associations g symptoms) as [|d l] eqn:E; [reflexivity|]. exfalso.
    assert (Hd : d ∈ associations g symptoms) by (rewrite E; left).
    apply elem_of_associations in Hd as (s & ds & Hs & Hds & Hd).
    rewrite (Hall s ds Hs Hds) in Hd. inversion Hd.
Qed.

Lemma predict_disease_empty_iff_witness :
  [("flu", Float.hundred)]%string = [] <->
  forall s ds, s ∈ ["fever"; "rash"]%string ->
               symptom_disease_map (example_table ["flu"]%string []) !! s = Some ds -> ds = [].
Proof.
  apply (predict_disease_empty_iff (example_table ["flu"]%string []) ["fever"; "rash"]%string 2).
  - lia.
  - vm_compute. reflexivity.
Defined.

(** No disease is returned twice; every returned disease is associated
    with at least one of the given symptoms; and when the result is
    shorter than [top_n], every disease associated with a given symptom
    is returned. *)
Theorem predict_disease_diseases (g : globals) (symptoms : list string) (top_n : Z)
    (r : list (string * spec_float)) :
  returns (predict_disease symptoms top_n) g r ->
  NoDup (map fst r) /\
  (forall d, d ∈ map fst r ->
     exists s ds, s ∈ symptoms /\ symptom_disease_map g !! s = Some ds /\ d ∈ ds) /\
  (Z.of_nat (length r) < top_n ->
   forall s ds d, s ∈ symptoms -> symptom_disease_map g !! s = Some ds -> d ∈ ds ->
                  d ∈ map fst r).
Proof.
  intros Hr.
  pose proof (returns_inj _ _ _ _ Hr (predict_disease_returns g symptoms top_n)) as ->.
  rewrite slice_to_take.
  set (n := if top_n <? 0 then _ else _).
  split; [|split].
  - pose proof (NoDup_keys_ranking g symptoms) as Hnd.
    rewrite <- (take_drop n (ranking g symptoms)), map_app in Hnd.
    apply NoDup_app in Hnd. apply Hnd.
  - intros d Hd. apply elem_of_associations, elem_of_keys_ranking.
    apply list_elem_of_fmap in Hd as (x & -> & Hx). apply list_elem_of_fmap.
    exists x. split; [reflexivity|]. eapply subseteq_take, Hx.
  - intros Hlen s ds d Hs Hds Hd.
    assert (Hfull : take n (ranking g symptoms) = ranking g symptoms).
    { apply take_ge. rewrite length_take in Hlen. subst n.
      destruct (top_n <? 0) eqn:E; [apply Z.ltb_lt in E; lia|]. lia. }
    rewrite Hfull. apply elem_of_keys_ranking, elem_of_associations. eauto.
Qed.

Lemma predict_disease_diseases_witness :
  "cold"%string ∈ map fst [("flu", Float.hundred); ("malaria", Float.fifty);
                           ("cold", Float.fifty)]%string.
Proof.
  assert (Hr : returns (predict_disease ["fever"; "cough"]%string 5) example_globals
                 [("flu", Float.hundred); ("malaria", Float.fifty); ("cold", Float.fifty)]%string)
    by (vm_compute; reflexivity).
  destruct (predict_disease_diseases _ _ _ _ Hr) as (_ & _ & H).
  apply (H ltac:(simpl; lia) "cough"%string ["flu"; "cold"]%string).
  - right. left.
  - reflexivity.
  - right. left.
Defined.

(** For [top_n >= 0] the result has exactly [min(top_n, k)] entries,
    where [k] is the number of different diseases associated with the
    given symptoms. *)
Theorem predict_disease_length (g : globals) (symptoms : list string) (top_n : Z)
    (r : list (string * spec_float)) :
  0 <= top_n ->
  returns (predict_disease symptoms top_n) g r ->
  length r = Nat.min (Z.to_nat top_n)
                     (size (list_to_set (associations g symptoms) : gset string)).
Proof.
  intros Hn Hr.
  pose proof (returns_inj _ _ _ _ Hr (predict_disease_returns g symptoms top_n)) as ->.
  rewrite slice_to_take.
  replace (top_n <? 0) with false by (symmetry; apply Z.ltb_ge; lia).
  rewrite length_take, length_ranking. reflexivity.
Qed.

Lemma predict_disease_length_witness :
  length [("flu", Float.hundred); ("malaria", Float.fifty)]%string
  = Nat.min (Z.to_nat 2)
      (size (list_to_set (associations example_globals ["fever"; "cough"]%string)
             : gset string)).
Proof.
  apply (predict_disease_length example_globals ["fever"; "cough"]%string 2).
  - lia.
  - vm_compute. reflexivity.
Defined.

(** Asking for fewer entries gives a prefix of what asking for more
    gives: for [0 <= n <= n'] the result for [n] is the first [n]
    entries of the result for [n']. *)
Theorem predict_disease_prefix (g : globals) (symptoms : list string) (n n' : Z)
    (r r' : list (string * spec_float)) :
  0 <= n <= n' ->
  returns (predict_disease symptoms n) g r ->
  returns (predict_disease symptoms n') g r' ->
  r = take (Z.to_nat n) r'.
Proof.
  intros Hn Hr Hr'.
  pose proof (returns_inj _ _ _ _ Hr (predict_disease_returns g symptoms n)) as ->.
  pose proof (returns_inj _ _ _ _ Hr' (predict_disease_returns g symptoms n')) as ->.
  rewrite !slice_to_take.
  replace (n <? 0) with false by (symmetry; apply Z.ltb_ge; lia).
  replace (n' <? 0) with false by (symmetry; apply Z.ltb_ge; lia).
  rewrite take_take. f_equal. lia.
Qed.

Lemma predict_disease_prefix_witness :
  [("flu", Float.hundred)]%string
  = take (Z.to_nat 1) [("flu", Float.hundred); ("malaria", Float.fifty);
                       ("cold", Float.fifty)]%string.
Proof.
  apply (predict_disease_prefix example_globals ["fever"; "cough"]%string 1 3).
  - lia.
  - vm_compute. reflexivity.
  - vm_compute. reflexivity.
Defined.

(** ** predict_disease: the order of the symptoms *)

Section Order.
Import Float FloatFacts Dict DictFacts.

Lemma associations_perm (g : globals) (s1 s2 : list string) :
  s1 ≡ₚ s2 -> associations g s1 ≡ₚ associations g s2.
Proof.
  intros H. induction H as [|x l l' _ IH|x y l|l l' l'' _ IH1 _ IH2].
  - reflexivity.
  - change (x :: ?l) with ([x] ++ l). rewrite !associations_app, IH. reflexivity.
  - change (y :: x :: l) with ([y] ++ [x] ++ l). change (x :: y :: l) with ([x] ++ [y] ++ l).
    rewrite !associations_app, !app_assoc. apply Permutation_app_tail, Permutation_app_comm.
  - etransitivity; eassumption.
Qed.

Lemma occurrences_perm (d : string) (l l' : list string) :
  l ≡ₚ l' -> occurrences d l = occurrences d l'.
Proof. unfold occurrences. intros ->. reflexivity. Qed.

Lemma max_of_perm (l l' : list Z) : l ≡ₚ l' -> max_of l = max_of l'.
Proof.
  intros H. destruct l as [|x l0] eqn:E.
  - apply Permutation_nil_l in H. subst l'. reflexivity.
  - rewrite <- E in *. assert (Hl : l <> []) by (rewrite E; discriminate).
    assert (Hl' : l' <> []) by (intros ->; apply Permutation_nil_r in H; contradiction).
    apply Z.le_antisymm; apply max_of_ge.
    + rewrite <- H. apply max_of_in, Hl.
    + rewrite H. apply max_of_in, Hl'.
Qed.

Lemma raw_score_perm (g : globals) (s1 s2 : list string) (d : string) :
  s1 ≡ₚ s2 -> raw_score g s1 d = raw_score g s2 d.
Proof. intros H. unfold raw_score. apply occurrences_perm, associations_perm, H. Qed.

Lemma max_score_perm (g : globals) (s1 s2 : list string) :
  s1 ≡ₚ s2 -> max_score g s1 = max_score g s2.
Proof.
  intros H. unfold max_score. apply max_of_perm.
  rewrite (associations_perm g s1 s2 H).
  apply Permutation_refl'. apply map_ext. intros d. apply raw_score_perm, H.
Qed.

Lemma elem_of_ranking (g : globals) (symptoms : list string) (d : string) (p : spec_float) :
  (d, p) ∈ ranking g symptoms <->
  d ∈ associations g symptoms /\
  p = probability (max_score g symptoms) (raw_score g symptoms d).
Proof.
  split.
  - intros H. apply ranking_elem in H. tauto.
  - intros [Hd ->]. rewrite ranking_perm. apply list_elem_of_fmap.
    exists (d, raw_score g symptoms d). split; [reflexivity|].
    apply lookup_elem_of. rewrite lookup_tally, decide_True by exact Hd. reflexivity.
Qed.

Lemma ranking_perm_symptoms (g : globals) (s1 s2 : list string) :
  s1 ≡ₚ s2 -> ranking g s1 ≡ₚ ranking g s2.
Proof.
  intros H. apply NoDup_Permutation.
  - eapply NoDup_fmap_1, NoDup_keys_ranking.
  - eapply NoDup_fmap_1, NoDup_keys_ranking.
  - intros [d p]. rewrite !elem_of_ranking.
    rewrite (associations_perm g s1 s2 H), (max_score_perm g s1 s2 H),
      (raw_score_perm g s1 s2 d H). reflexivity.
Qed.

End Order.

(** The order in which the symptoms are given decides nothing but the
    order of ties: for two listings of the same symptoms a disease gets
    the same probability from both calls, whatever the two [top_n]; and
    when [top_n] is large enough for nothing to be cut off, the two
    results hold the same entries. *)
Theorem predict_disease_symptom_order (g : globals) (s1 s2 : list string) (n1 n2 : Z)
    (r1 r2 : list (string * spec_float)) :
  s1 ≡ₚ s2 ->
  returns (predict_disease s1 n1) g r1 ->
  returns (predict_disease s2 n2) g r2 ->
  (forall d p1 p2, (d, p1) ∈ r1 -> (d, p2) ∈ r2 -> p1 = p2) /\
  (Z.of_nat (length (associations g s1)) <= n1 -> n1 = n2 -> r1 ≡ₚ r2).
Proof.
  intros H Hr1 Hr2.
  pose proof (returns_inj _ _ _ _ Hr1 (predict_disease_returns g s1 n1)) as ->.
  pose proof (returns_inj _ _ _ _ Hr2 (predict_disease_returns g s2 n2)) as ->.
  split.
  - intros d p1 p2 H1 H2. rewrite slice_to_take in H1, H2.
    apply subseteq_take, elem_of_ranking in H1 as [_ ->].
    apply subseteq_take, elem_of_ranking in H2 as [_ ->].
    rewrite (max_score_perm g s1 s2 H), (raw_score_perm g s1 s2 d H). reflexivity.
  - intros Hn <-. rewrite !slice_to_take.
    assert (Hlen : forall s, s ≡ₚ s1 ->
              (length (ranking g s) <= length (associations g s1))%nat).
    { intros s Hs. rewrite <- (length_map fst), keys_ranking.
      rewrite <- (Permutation_length (associations_perm g s s1 Hs)).
      apply submseteq_length, NoDup_submseteq; [apply NoDup_keys_tally|].
      intros d Hd. apply elem_of_keys_tally, Hd. }
    pose proof (Hlen s1 ltac:(reflexivity)) as Hl1.
    pose proof (Hlen s2 ltac:(symmetry; exact H)) as Hl2.
    replace (n1 <? 0) with false by (symmetry; apply Z.ltb_ge; lia).
    rewrite !take_ge by lia. apply ranking_perm_symptoms, H.
Qed.

Lemma predict_disease_symptom_order_witness :
  [("flu", Float.hundred); ("malaria", Float.fifty); ("cold", Float.fifty)]%string
  ≡ₚ [("flu", Float.hundred); ("cold", Float.fifty); ("malaria", Float.fifty)]%string.
Proof.
  destruct (predict_disease_symptom_order example_globals
              ["fever"; "cough"]%string ["cough"; "fever"]%string 4 4
              [("flu", Float.hundred); ("malaria", Float.fifty); ("cold", Float.fifty)]%string
              [("flu", Float.hundred); ("cold", Float.fifty); ("malaria", Float.fifty)]%string)
    as [_ Hperm].
  - apply perm_swap.
  - vm_compute. reflexivity.
  - vm_compute. reflexivity.
  - apply Hperm; [vm_compute; discriminate|reflexivity].
Defined.

(** ** predict_disease: one symptom *)

Section OneSymptom.
Import Float FloatFacts Dict DictFacts.

Lemma setitem_absent (d : Dict.t) (k : string) (v : Z) :
  contains d k = false -> setitem d k v = d ++ [(k, v)].
Proof.
  induction d as [|[k0 v0] d IH]; simpl; [reflexivity|].
  destruct (String.eqb k0 k); [discriminate|]. intros H. rewrite IH by exact H. reflexivity.
Qed.

Lemma fold_bump_fresh (l : list string) : forall d,
  NoDup l -> (forall x, x ∈ l -> x ∉ map fst d) ->
  fold_left bump l d = d ++ map (fun x => (x, 1)) l.
Proof.
  induction l as [|x l IH]; intros d Hnd Hfresh; simpl; [rewrite app_nil_r; reflexivity|].
  apply NoDup_cons in Hnd as [Hx Hnd].
  assert (Hc : contains d x = false).
  { destruct (contains d x) eqn:E; [|reflexivity].
    apply contains_keys in E. exfalso. apply (Hfresh x); [left|exact E]. }
  assert (Hb : bump d x = d ++ [(x, 1)]).
  { unfold bump. pose proof (contains_lookup d x) as Hl. rewrite Hc in Hl.
    destruct (lookup d x); [discriminate|]. apply setitem_absent, Hc. }
  rewrite Hb, IH.
  - rewrite <- app_assoc. reflexivity.
  - exact Hnd.
  - intros y Hy. rewrite map_app, elem_of_app. intros [H|H].
    + apply (Hfresh y); [right; exact Hy|exact H].
    + simpl in H. apply list_elem_of_singleton in H as ->. contradiction.
Qed.

Lemma max_of_ones {A : Type} (l : list A) : l <> [] -> max_of (map (fun _ => 1) l) = 1.
Proof.
  intros Hl. apply Z.le_antisymm.
  - assert (H : max_of (map (fun _ : A => 1) l) ∈ map (fun _ : A => 1) l).
    { apply max_of_in. destruct l; [contradiction|discriminate]. }
    apply list_elem_of_fmap in H as (x & -> & _). lia.
  - apply max_of_ge. destruct l as [|x l]; [contradiction|]. left.
Qed.

(** Entries that all carry 100.0 keep their order in the sort. *)
Lemma sort_all_hundred (ds : list string) :
  sort_key1_reverse (map (fun d => (d, hundred)) ds) = map (fun d => (d, hundred)) ds.
Proof.
  induction ds as [|d ds IH]; [reflexivity|].
  cbn [map sort_key1_reverse foldr]. fold (sort_key1_reverse (map (fun d => (d, hundred)) ds)).
  rewrite IH. destruct ds as [|d' ds]; reflexivity.
Qed.

End OneSymptom.

(** With a single symptom whose table entry lists each disease once,
    the result is the first [top_n] diseases of that entry, in the
    order of the entry, each at 100.0. *)
Theorem predict_disease_single_symptom (g : globals) (symptom : string)
    (diseases : list string) (top_n : Z) :
  symptom_disease_map g !! symptom = Some diseases ->
  NoDup diseases ->
  returns (predict_disease [symptom] top_n) g
    (slice_to (map (fun d => (d, Float.hundred)) diseases) top_n).
Proof.
  intros Hs Hnd.
  assert (Hrank : ranking g [symptom] = map (fun d => (d, Float.hundred)) diseases).
  { assert (Ha : associations g [symptom] = diseases).
    { unfold associations. cbn [flat_map]. rewrite Hs. apply app_nil_r. }
    assert (Ht : tally diseases = map (fun d => (d, 1)) diseases).
    { unfold tally. rewrite fold_bump_fresh; [reflexivity|exact Hnd|].
      intros x _ H. inversion H. }
    unfold ranking. rewrite Ha, Ht.
    destruct diseases as [|d ds]; [reflexivity|].
    assert (Hmax : max_of (Dict.values (map (fun d => (d, 1)) (d :: ds))) = 1).
    { unfold Dict.values. rewrite map_map. apply (max_of_ones (d :: ds)). discriminate. }
    rewrite Hmax, map_map.
    rewrite (map_ext _ (fun d => (d, Float.hundred)))
      by (intros x; rewrite probability_max by lia; reflexivity).
    apply sort_all_hundred. }
  rewrite <- Hrank. apply predict_disease_returns.
Qed.

Lemma predict_disease_single_symptom_witness :
  returns (predict_disease ["cough"%string] 1) example_globals
    (slice_to (map (fun d => (d, Float.hundred)) ["flu"; "cold"]%string) 1).
Proof.
  apply predict_disease_single_symptom.
  - reflexivity.
  - apply NoDup_cons. split; [|apply NoDup_singleton].
    intros H. apply list_elem_of_singleton in H. discriminate.
Defined.

(** ** preprocess_symptoms: what is listed *)

(** The list that [preprocess_symptoms] returns has no duplicates and
    holds exactly the selected symptoms and, when there is a text, the
    symptoms that [extract_symptoms_from_text] recognizes in it. *)
Theorem preprocess_symptoms_union {platform : Platform}
    (g : globals) (selected : list string) (text : string) :
  exists r rec,
    returns (preprocess_symptoms selected text) g r /\
    returns (extract_symptoms_from_text text) g rec /\
    NoDup r /\
    forall s, s ∈ r <-> s ∈ selected \/ (text <> ""%string /\ s ∈ rec).
Proof.
  exists (set_to_list (processed g selected text)), (recognized g (words_of g text)).
  split; [apply preprocess_symptoms_returns|].
  split; [apply extract_symptoms_from_text_returns|].
  split; [apply NoDup_set_to_list|].
  intros s. rewrite elem_of_set_to_list. unfold processed.
  destruct text as [|c text]; cbn [Str.truthy].
  - rewrite elem_of_list_to_set. split; [intros H; left; exact H|].
    intros [H|[H _]]; [exact H|exfalso; apply H; reflexivity].
  - rewrite elem_of_union, elem_of_list_to_set. split.
    + intros [H|H]; [auto|]. right. split; [discriminate|exact H].
    + intros [H|[_ H]]; auto.
Qed.

(** ** app.py: diagnose *)

Module AppFacts.
Import App.

Lemma state_eta (st : state) :
  State (tables st) (session_diagnosis_results st) (session_diagnosis_id st)
        (flashes st) (database st) (save_attempts st) (read_attempts st) = st.
Proof. destruct st; reflexivity. Qed.

Lemma call_returns {A : Type} (m : Py A) (st : state) (a : A) :
  returns m (tables st) a -> call m st = (Ok a, st).
Proof. unfold call, returns. intros ->. rewrite state_eta. reflexivity. Qed.

Lemma bind_ok {A B : Type} (m : M A) (k : A -> M B) (st st' : state) (a : A) :
  m st = (Ok a, st') -> (m ≫= k) st = k a st'.
Proof. unfold mbind, M_bind. intros ->. reflexivity. Qed.

End AppFacts.

Section Diagnose.
Import App AppFacts.

Context {platform : Platform} {storage : Storage}.

Lemma get_disease_info_returns (g : globals) (disease_name : string) :
  returns (get_disease_info disease_name) g (diseases_data g !! disease_name).
Proof.
  unfold get_disease_info. eapply returns_bind; [apply returns_global|apply returns_ret].
Qed.

Lemma build_results_from_spec (predicted : list (string * spec_float)) (st : state) :
  forall acc,
    build_results_from acc predicted st
    = (Ok (acc ++ omap (entry_of (tables st)) predicted), st).
Proof.
  induction predicted as [|[d p] predicted IH]; intros acc.
  - cbn. rewrite app_nil_r. reflexivity.
  - cbn [build_results_from]. erewrite bind_ok.
    2: { apply call_returns. apply get_disease_info_returns. }
    assert (Hcons : omap (entry_of (tables st)) ((d, p) :: predicted)
                    = match entry_of (tables st) (d, p) with
                      | Some y => y :: omap (entry_of (tables st)) predicted
                      | None => omap (entry_of (tables st)) predicted
                      end) by reflexivity.
    assert (Hentry : entry_of (tables st) (d, p)
                     = match diseases_data (tables st) !! d with
                       | Some i => if decide (i = ∅) then None else Some (Result d p i)
                       | None => None
                       end) by reflexivity.
    rewrite Hcons, Hentry. clear Hcons Hentry.
    destruct (diseases_data (tables st) !! d) as [i|]; cbn [truthy_info default].
    + destruct (decide (i = ∅)) as [Hi|Hi].
      * rewrite bool_decide_eq_true_2 by exact Hi. cbn [negb]. apply IH.
      * rewrite bool_decide_eq_false_2 by exact Hi. cbn [negb].
        rewrite IH, <- app_assoc. reflexivity.
    + apply IH.
Qed.

Lemma build_results_spec (predicted : list (string * spec_float)) (st : state) :
  build_results predicted st = (Ok (omap (entry_of (tables st)) predicted), st).
Proof. unfold build_results. rewrite build_results_from_spec. reflexivity. Qed.

(** What the save loop leaves behind. *)
Lemma save_loop_spec (remaining : nat) (processed : list string) (results : list result) :
  forall st,
    let '(o, st') := save_loop remaining processed results st in
    tables st' = tables st /\
    session_diagnosis_results st' = session_diagnosis_results st /\
    flashes st' = flashes st /\
    read_attempts st' = read_attempts st /\
    (save_attempts st <= save_attempts st' <= save_attempts st + remaining)%nat /\
    (exists rows,
       database st' = database st ++ rows /\
       (length rows <= save_attempts st' - save_attempts st)%nat /\
       Forall (fun row => row_symptoms row = processed /\
                          row_results row = map row_of_result results) rows /\
       ((session_diagnosis_id st' = session_diagnosis_id st /\
         (o = Ok tt -> save_attempts st' = (save_attempts st + remaining)%nat) /\
         ((forall k, (k < remaining)%nat ->
                     raises_after_commit (save_event_at (save_attempts st + k)) = false) ->
          rows = []))
        \/ (o = Ok tt /\
            exists earlier row,
              rows = earlier ++ [row] /\
              session_diagnosis_id st' = Some (row_id row) /\
              ((forall k, (k < remaining)%nat ->
                          raises_after_commit (save_event_at (save_attempts st + k)) = false) ->
               earlier = [])))) /\
    (o <> Ok tt ->
     exists k, (k < remaining)%nat /\
               rollback_raises (save_event_at (save_attempts st + k)) = true).
Proof.
  induction remaining as [|remaining IH]; intros st.
  - cbn. split_and!; try reflexivity; try lia.
    + exists []. rewrite app_nil_r. split_and!; [reflexivity|cbn; lia|constructor|].
      left. split_and!; [reflexivity|intros _; lia|reflexivity].
    + intros H. contradiction.
  - cbn [save_loop]. unfold mbind, M_bind, save_once.
    destruct (save_event_at (save_attempts st)) as [id ts| | |id ts|id ts] eqn:E.
    + cbn. split_and!; try reflexivity; try lia.
      * exists [DiagnosisRow id ts processed (map row_of_result results)].
        split_and!; [reflexivity|cbn; lia|repeat constructor|].
        right. split; [reflexivity|].
        exists [], (DiagnosisRow id ts processed (map row_of_result results)).
        split_and!; reflexivity.
      * intros H. contradiction.
    + specialize (IH (State (tables st) (session_diagnosis_results st)
                            (session_diagnosis_id st) (flashes st) (database st)
                            (S (save_attempts st)) (read_attempts st))).
      destruct (save_loop remaining processed results _) as [o st'].
      cbn in IH. destruct IH as (H1 & H2 & H3 & H4 & H5 & (rows & Hdb & Hlen & Hall & H6) & H7).
      split_and!; try assumption; try lia.
      * exists rows. split_and!; [exact Hdb|lia|exact Hall|].
        assert (Hshift : (forall k, (k < S remaining)%nat ->
                            raises_after_commit (save_event_at (save_attempts st + k)) = false) ->
                         forall k, (k < remaining)%nat ->
                            raises_after_commit (save_event_at (S (save_attempts st + k))) = false).
        { intros H k Hk. rewrite <- Nat.add_succ_r. apply H. lia. }
        destruct H6 as [(Hb & Hc & Hd)|(Ho & earlier & row & Hr & Hid & Hd)].
        -- left. split_and!; [exact Hb|intros Ho; rewrite (Hc Ho); lia|].
           intros H. apply Hd, Hshift, H.
        -- right. split; [exact Ho|]. exists earlier, row.
           split_and!; [exact Hr|exact Hid|]. intros H. apply Hd, Hshift, H.
      * intros Ho. destruct (H7 Ho) as (k & Hk & Hev).
        exists (S k). split; [lia|]. rewrite <- Hev. f_equal. f_equal. lia.
    + cbn. split_and!; try reflexivity; try lia.
      * exists []. rewrite app_nil_r. split_and!; [reflexivity|cbn; lia|constructor|].
        left. split_and!; [reflexivity|discriminate|reflexivity].
      * intros _. exists 0%nat. split; [lia|]. rewrite Nat.add_0_r, E. reflexivity.
    + set (row0 := DiagnosisRow id ts processed (map row_of_result results)).
      specialize (IH (State (tables st) (session_diagnosis_results st)
                            (session_diagnosis_id st) (flashes st) (database st ++ [row0])
                            (S (save_attempts st)) (read_attempts st))).
      destruct (save_loop remaining processed results _) as [o st'].
      cbn in IH. destruct IH as (H1 & H2 & H3 & H4 & H5 & (rows & Hdb & Hlen & Hall & H6) & H7).
      assert (Hfirst : ~ (forall k, (k < S remaining)%nat ->
                            raises_after_commit (save_event_at (save_attempts st + k)) = false)).
      { intros H. specialize (H 0%nat). rewrite Nat.add_0_r, E in H.
        specialize (H ltac:(lia)). discriminate. }
      split_and!; try assumption; try lia.
      * exists (row0 :: rows).
        split_and!; [rewrite Hdb, <- app_assoc; reflexivity|cbn; lia| |].
        { constructor; [split; reflexivity|exact Hall]. }
        destruct H6 as [(Hb & Hc & _)|(Ho & earlier & row & Hr & Hid & _)].
        -- left. split_and!; [exact Hb|intros Ho; rewrite (Hc Ho); lia|].
           intros H. contradiction.
        -- right. split; [exact Ho|]. exists (row0 :: earlier), row.
           split_and!; [rewrite Hr; reflexivity|exact Hid|]. intros H. contradiction.
      * intros Ho. destruct (H7 Ho) as (k & Hk & Hev).
        exists (S k). split; [lia|]. rewrite <- Hev. f_equal. f_equal. lia.
    + cbn. split_and!; try reflexivity; try lia.
      * exists [DiagnosisRow id ts processed (map row_of_result results)].
        split_and!; [reflexivity|cbn; lia|repeat constructor|].
        left. split_and!; [reflexivity|discriminate|].
        intros H. specialize (H 0%nat). rewrite Nat.add_0_r, E in H.
        specialize (H ltac:(lia)). discriminate.
      * intros _. exists 0%nat. split; [lia|]. rewrite Nat.add_0_r, E. reflexivity.
Qed.

(** The four ways through [diagnose]. *)
Lemma diagnose_cases (user_symptoms : list string) (text : string) (st : state) :
  let g := tables st in
  let symptoms := set_to_list (processed g user_symptoms text) in
  let predicted := slice_to (ranking g symptoms) 3 in
  let results := omap (entry_of g) predicted in
  (user_symptoms = [] /\ str_strip text = EmptyString /\
   diagnose user_symptoms text st
   = (Redirect Index,
      flashed "Please select at least one symptom for diagnosis" "warning" st))
  \/ (~ (user_symptoms = [] /\ str_strip text = EmptyString) /\
      ((symptoms = [] /\
        diagnose user_symptoms text st
        = (Redirect Index,
           flashed "No valid symptoms were found. Please try again." "warning" st))
       \/ (symptoms <> [] /\ predicted = [] /\
           diagnose user_symptoms text st
           = (Redirect Index,
              flashed "Unable to determine a diagnosis based on provided symptoms. Please consult a medical professional." "info" st))
       \/ (symptoms <> [] /\ predicted <> [] /\
           diagnose user_symptoms text st
           = match save_loop 3 symptoms results (with_results results st) with
             | (Ok _, st') => (RenderResults results, st')
             | (Error _, st') =>
                 (Redirect Index,
                  flashed "An error occurred while processing your symptoms. Please try again." "danger" st')
             end))).
Proof.
  cbv zeta.
  set (g := tables st).
  set (symptoms := set_to_list (processed g user_symptoms text)).
  set (predicted := slice_to (ranking g symptoms) 3).
  assert (Hpre : call (preprocess_symptoms user_symptoms text) st = (Ok symptoms, st))
    by (apply call_returns, preprocess_symptoms_returns).
  assert (Hpred : call (predict_disease_default symptoms) st = (Ok predicted, st))
    by (apply call_returns, predict_disease_returns).
  assert (Hrest :
    (processed_symptoms ← call (preprocess_symptoms user_symptoms text);
     match processed_symptoms with
     | [] =>
         _ ← flash "No valid symptoms were found. Please try again." "warning";
         mret (Redirect Index)
     | _ =>
         predicted_diseases ← call (predict_disease_default processed_symptoms);
         match predicted_diseases with
         | [] =>
             _ ← flash "Unable to determine a diagnosis based on provided symptoms. Please consult a medical professional." "info";
             mret (Redirect Index)
         | _ =>
             results ← build_results predicted_diseases;
             _ ← set_session_results results;
             _ ← save_loop 3 processed_symptoms results;
             mret (RenderResults results)
         end
     end) st
    = match symptoms with
      | [] => (Ok (Redirect Index),
               flashed "No valid symptoms were found. Please try again." "warning" st)
      | _ =>
          match predicted with
          | [] => (Ok (Redirect Index),
                   flashed "Unable to determine a diagnosis based on provided symptoms. Please consult a medical professional." "info" st)
          | _ =>
              match save_loop 3 symptoms (omap (entry_of g) predicted)
                      (with_results (omap (entry_of g) predicted) st) with
              | (Ok _, st') => (Ok (RenderResults (omap (entry_of g) predicted)), st')
              | (Error e, st') => (Error e, st')
              end
          end
      end).
  { rewrite (bind_ok _ _ _ _ _ Hpre).
    destruct symptoms as [|s0 symptoms0] eqn:Es; [reflexivity|]. rewrite <- Es in *.
    rewrite (bind_ok _ _ _ _ _ Hpred).
    destruct predicted as [|p0 predicted0] eqn:Ep; [reflexivity|]. rewrite <- Ep in *.
    rewrite (bind_ok _ _ _ _ _ (build_results_spec predicted st)).
    fold g. unfold mbind at 1, M_bind at 1. cbn [set_session_results].
    unfold with_results. cbn [set_session_results snd].
    unfold mbind, M_bind.
    destruct (save_loop 3 symptoms (omap (entry_of g) predicted) _) as [[[]|e] st']; reflexivity. }
  unfold diagnose, try_except, diagnose_body.
  destruct user_symptoms as [|u us].
  - destruct (str_strip text) as [|c t] eqn:Estrip.
    + left. repeat split.
    + right. split; [intros [_ H]; discriminate|].
      rewrite Hrest. clear Hrest.
      destruct symptoms as [|s0 symptoms0] eqn:Es; [left; split; reflexivity|]. rewrite <- Es in *.
      right. destruct predicted as [|p0 predicted0] eqn:Ep.
      * left. split; [rewrite Es; discriminate|]. split; reflexivity.
      * rewrite <- Ep in *. right. split; [rewrite Es; discriminate|].
        split; [rewrite Ep; discriminate|].
        destruct (save_loop 3 symptoms _ _) as [[a|e] st']; reflexivity.
  - right. split; [intros [H _]; discriminate|].
    rewrite Hrest. clear Hrest.
    destruct symptoms as [|s0 symptoms0] eqn:Es; [left; split; reflexivity|]. rewrite <- Es in *.
    right. destruct predicted as [|p0 predicted0] eqn:Ep.
    * left. split; [rewrite Es; discriminate|]. split; reflexivity.
    * rewrite <- Ep in *. right. split; [rewrite Es; discriminate|].
      split; [rewrite Ep; discriminate|].
      destruct (save_loop 3 symptoms _ _) as [[a|e] st']; reflexivity.
Qed.

End Diagnose.

Lemma omap_length_le {A B : Type} (f : A -> option B) (l : list A) :
  (length (omap f l) <= length l)%nat.
Proof.
  induction l as [|x l IH]; [reflexivity|].
  change (omap f (x :: l)) with (match f x with Some y => y :: omap f l | None => omap f l end).
  destruct (f x); simpl; lia.
Qed.

Section DiagnoseProperties.
Import App AppFacts.

Context {platform : Platform} {storage : Storage}.

(** When [diagnose] renders the results page, the selection and the
    text gave at least one symptom and the scorer at least one disease;
    the page lists, in the scorer's order, the at most three predicted
    diseases that have a non-empty entry in the disease-info table, each
    with its probability and that entry; the others are left out; the
    same list is in the session, and nothing is flashed. *)
Theorem diagnose_results_page (user_symptoms : list string) (text : string) (st st' : state)
    (results : list result) :
  diagnose user_symptoms text st = (RenderResults results, st') ->
  exists symptoms predicted,
    returns (preprocess_symptoms user_symptoms text) (tables st) symptoms /\
    returns (predict_disease symptoms 3) (tables st) predicted /\
    symptoms <> [] /\ predicted <> [] /\
    results = omap (entry_of (tables st)) predicted /\
    (length results <= 3)%nat /\
    (forall r, r ∈ results ->
       (disease r, probability r) ∈ predicted /\
       diseases_data (tables st) !! disease r = Some (info r) /\ info r <> ∅) /\
    (forall d p, (d, p) ∈ predicted ->
       (exists i, diseases_data (tables st) !! d = Some i /\ i <> ∅) ->
       exists r, r ∈ results /\ disease r = d /\ probability r = p) /\
    session_diagnosis_results st' = Some results /\
    flashes st' = flashes st /\
    tables st' = tables st.
Proof.
  intros Hd.
  destruct (diagnose_cases user_symptoms text st) as [(_ & _ & E)|(_ & [(_ & E)|[(_ & _ & E)|(Hs & Hp & E)]])];
    cbv zeta in *; rewrite E in Hd; try discriminate.
  set (g := tables st) in *.
  set (symptoms := set_to_list (processed g user_symptoms text)) in *.
  set (predicted := slice_to (ranking g symptoms) 3) in *.
  pose proof (save_loop_spec 3 symptoms (omap (entry_of g) predicted)
                (with_results (omap (entry_of g) predicted) st)) as Hsave.
  destruct (save_loop 3 symptoms _ _) as [[[]|e] st1]; [|discriminate].
  injection Hd as <- <-.
  destruct Hsave as (H1 & H2 & H3 & _).
  exists symptoms, predicted.
  split; [apply preprocess_symptoms_returns|].
  split; [apply predict_disease_returns|].
  split; [exact Hs|]. split; [exact Hp|]. split; [reflexivity|].
  assert (Hentry : forall r, r ∈ omap (entry_of g) predicted <->
            exists d p, (d, p) ∈ predicted /\ entry_of g (d, p) = Some r).
  { intros r. rewrite list_elem_of_omap. split.
    - intros ([d p] & Hin & He). eauto.
    - intros (d & p & Hin & He). exists (d, p). auto. }
  split; [|split; [|split; [|split; [exact H2|split; [exact H3|exact H1]]]]].
  - etransitivity; [apply omap_length_le|].
    unfold predicted. rewrite slice_to_take. cbn. rewrite length_take. lia.
  - intros r Hr. apply Hentry in Hr as (d & p & Hin & He).
    unfold entry_of in He. cbn [fst snd] in He.
    destruct (diseases_data g !! d) as [i|] eqn:Ei; [|discriminate].
    destruct (decide (i = ∅)); [discriminate|]. injection He as <-. cbn. auto.
  - intros d p Hin (i & Hi & Hne).
    exists (Result d p i). split; [|split; reflexivity].
    apply Hentry. exists d, p. split; [exact Hin|].
    unfold entry_of. cbn [fst snd]. fold g. rewrite Hi.
    destruct (decide (i = ∅)); [contradiction|reflexivity].
Qed.

(** Every redirect of [diagnose] goes to the index page and comes with
    exactly one flashed message; the stored diagnosis id and the tables
    are as before; the database keeps its rows, and it is as before
    unless a statement after a commit raised. *)
Theorem diagnose_redirect (user_symptoms : list string) (text : string) (st st' : state)
    (target : endpoint) :
  diagnose user_symptoms text st = (Redirect target, st') ->
  target = Index /\
  (exists message category, flashes st' = flashes st ++ [(message, category)]) /\
  session_diagnosis_id st' = session_diagnosis_id st /\
  tables st' = tables st /\
  (exists rows, database st' = database st ++ rows /\ (length rows <= 3)%nat) /\
  ((forall k, (k < 3)%nat ->
              raises_after_commit (save_event_at (save_attempts st + k)) = false) ->
   database st' = database st).
Proof.
  intros Hd.
  destruct (diagnose_cases user_symptoms text st) as [(_ & _ & E)|(_ & [(_ & E)|[(_ & _ & E)|(Hs & Hp & E)]])];
    cbv zeta in *; rewrite E in Hd.
  1-3: injection Hd as <- <-; split; [reflexivity|]; split; [eauto|];
       split_and!; try reflexivity;
       exists []; cbn; rewrite app_nil_r; split; [reflexivity|lia].
  set (g := tables st) in *.
  set (symptoms := set_to_list (processed g user_symptoms text)) in *.
  set (predicted := slice_to (ranking g symptoms) 3) in *.
  pose proof (save_loop_spec 3 symptoms (omap (entry_of g) predicted)
                (with_results (omap (entry_of g) predicted) st)) as Hsave.
  destruct (save_loop 3 symptoms _ _) as [[[]|e] st1]; [discriminate|].
  injection Hd as <- <-.
  destruct Hsave as (H1 & H2 & H3 & _ & H5 & (rows & Hdb & Hlen & _ & H6) & _).
  cbn in *.
  destruct H6 as [(Hb & _ & Hd)|(Ho & _)]; [|discriminate].
  split; [reflexivity|]. split_and!.
  - eexists _, _. rewrite H3. reflexivity.
  - exact Hb.
  - exact H1.
  - exists rows. split; [exact Hdb|lia].
  - intros H. rewrite Hdb, (Hd H). apply app_nil_r.
Qed.

(** What [diagnose] stores. It tries to save at most three times. The
    rows that were in the database stay; each attempt adds at most one
    diagnosis, and every added diagnosis holds the processed symptoms
    and one result row per entry of [results]. The stored diagnosis id
    is as before, and then a shown results page means that three
    attempts were made; or the results page is shown and the stored id
    is that of the diagnosis added last. Unless a statement after a
    commit raises, at most one diagnosis is added, and none without
    the results page being shown. *)
Theorem diagnose_stored_rows (user_symptoms : list string) (text : string) (st : state) :
  let resp := fst (diagnose user_symptoms text st) in
  let st' := snd (diagnose user_symptoms text st) in
  (save_attempts st <= save_attempts st' <= save_attempts st + 3)%nat /\
  exists rows,
    database st' = database st ++ rows /\
    (length rows <= save_attempts st' - save_attempts st)%nat /\
    (forall row, row ∈ rows ->
       exists symptoms predicted,
         returns (preprocess_symptoms user_symptoms text) (tables st) symptoms /\
         returns (predict_disease symptoms 3) (tables st) predicted /\
         row_symptoms row = symptoms /\
         row_results row = map row_of_result (omap (entry_of (tables st)) predicted)) /\
    ((session_diagnosis_id st' = session_diagnosis_id st /\
      ((exists results, resp = RenderResults results) ->
       save_attempts st' = (save_attempts st + 3)%nat))
     \/ (exists results earlier row,
           resp = RenderResults results /\
           rows = earlier ++ [row] /\
           session_diagnosis_id st' = Some (row_id row))) /\
    ((forall k, (k < 3)%nat ->
                raises_after_commit (save_event_at (save_attempts st + k)) = false) ->
     (length rows <= 1)%nat /\
     (rows <> [] -> exists results, resp = RenderResults results)).
Proof.
  cbv zeta.
  destruct (diagnose_cases user_symptoms text st) as [(_ & _ & E)|(_ & [(_ & E)|[(_ & _ & E)|(Hs & Hp & E)]])];
    cbv zeta in *; rewrite E.
  1-3: cbn; split; [lia|]; exists []; rewrite app_nil_r;
       split_and!; [reflexivity|cbn; lia|intros row Hrow; inversion Hrow| |];
       [left; split; [reflexivity|intros [? ?]; discriminate]
       |intros _; split; [cbn; lia|intros H; contradiction]].
  set (g := tables st) in *.
  set (symptoms := set_to_list (processed g user_symptoms text)) in *.
  set (predicted := slice_to (ranking g symptoms) 3) in *.
  pose proof (save_loop_spec 3 symptoms (omap (entry_of g) predicted)
                (with_results (omap (entry_of g) predicted) st)) as Hsave.
  assert (Hrows : forall rows,
            Forall (fun row => row_symptoms row = symptoms /\
                     row_results row = map row_of_result (omap (entry_of g) predicted)) rows ->
            forall row, row ∈ rows ->
              exists symptoms0 predicted0,
                returns (preprocess_symptoms user_symptoms text) g symptoms0 /\
                returns (predict_disease symptoms0 3) g predicted0 /\
                row_symptoms row = symptoms0 /\
                row_results row = map row_of_result (omap (entry_of g) predicted0)).
  { intros rows Hall row Hrow. rewrite Forall_forall in Hall.
    destruct (Hall row Hrow) as [Ha Hb]. exists symptoms, predicted.
    split_and!; [apply preprocess_symptoms_returns|apply predict_disease_returns
                |exact Ha|exact Hb]. }
  destruct (save_loop 3 symptoms _ _) as [[[]|e] st1];
    destruct Hsave as (H1 & H2 & H3 & _ & H5 & (rows & Hdb & Hlen & Hall & H6) & _);
    cbn in *.
  - split; [exact H5|]. exists rows.
    split_and!; [exact Hdb|exact Hlen|apply Hrows, Hall| |].
    + destruct H6 as [(Hb & Hc & _)|(_ & earlier & row & Hr & Hid & _)].
      * left. split; [exact Hb|]. intros _. apply Hc. reflexivity.
      * right. exists (omap (entry_of g) predicted), earlier, row. auto.
    + intros H. split; [|eauto].
      destruct H6 as [(_ & _ & Hd)|(_ & earlier & row & Hr & _ & Hd)].
      * rewrite (Hd H). cbn. lia.
      * rewrite Hr, (Hd H). cbn. lia.
  - split; [exact H5|]. exists rows.
    destruct H6 as [(Hb & _ & Hd)|(Ho & _)]; [|discriminate].
    split_and!; [exact Hdb|exact Hlen|apply Hrows, Hall| |].
    + left. split; [exact Hb|]. intros [? ?]; discriminate.
    + intros H. rewrite (Hd H). split; [cbn; lia|intros Hne; contradiction].
Qed.

End DiagnoseProperties.

(** With a storage whose first commit is followed by a raise, one call
    of [diagnose] stores the diagnosis twice. *)
Example diagnose_can_store_twice :
  length (App.database
            (snd (App.diagnose (platform := plain_platform) (storage := repeating_storage)
                    ["fever"%string] "" (fresh_state app_globals)))) = 2%nat.
Proof. vm_compute. reflexivity. Qed.

Lemma diagnose_results_page_witness :
  exists symptoms predicted,
    returns (preprocess_symptoms (platform := plain_platform)
               ["fever"%string] "I have a cough") app_globals symptoms /\
    returns (predict_disease symptoms 3) app_globals predicted /\
    [App.Result "flu" Float.hundred {[ "description" := InfoText "a viral infection" ]}]%string
    = omap (entry_of app_globals) predicted.
Proof.
  destruct (diagnose_results_page (platform := plain_platform) (storage := plain_storage)
              ["fever"%string] "I have a cough" (fresh_state app_globals)
              (snd (App.diagnose (platform := plain_platform) (storage := plain_storage)
                      ["fever"%string] "I have a cough" (fresh_state app_globals)))
              [App.Result "flu" Float.hundred
                 {[ "description" := InfoText "a viral infection" ]}]%string)
    as (symptoms & predicted & H1 & H2 & _ & _ & H5 & _).
  - vm_compute. reflexivity.
  - exists symptoms, predicted. auto.
Defined.

Lemma diagnose_redirect_witness :
  exists message category,
    App.flashes (snd (App.diagnose (platform := plain_platform) (storage := plain_storage)
                        [] "the and" (fresh_state app_globals)))
    = App.flashes (fresh_state app_globals) ++ [(message, category)].
Proof.
  destruct (diagnose_redirect (platform := plain_platform) (storage := plain_storage)
              [] "the and" (fresh_state app_globals)
              (snd (App.diagnose (platform := plain_platform) (storage := plain_storage)
                      [] "the and" (fresh_state app_globals)))
              App.Index) as (_ & H & _).
  - vm_compute. reflexivity.
  - exact H.
Defined.

(** What [diagnose] answers does not depend on the database: for two
    storages whose rollbacks never fail, whatever their save attempts
    do, the response, the flashed messages and the results kept in the
    session are the same. *)
Theorem diagnose_response_independent_of_storage {platform : Platform}
    (s1 s2 : App.Storage) (user_symptoms : list string) (text : string) (st : App.state) :
  (forall k, App.rollback_raises (@App.save_event_at s1 k) = false) ->
  (forall k, App.rollback_raises (@App.save_event_at s2 k) = false) ->
  let run1 := @App.diagnose platform s1 user_symptoms text st in
  let run2 := @App.diagnose platform s2 user_symptoms text st in
  fst run1 = fst run2 /\
  App.flashes (snd run1) = App.flashes (snd run2) /\
  App.session_diagnosis_results (snd run1) = App.session_diagnosis_results (snd run2).
Proof.
  intros Hs1 Hs2. cbv zeta.
  assert (Hrun : forall s : App.Storage,
            (forall k, App.rollback_raises (@App.save_event_at s k) = false) ->
            forall symptoms results st0,
            exists st1,
              @App.save_loop s 3 symptoms results st0 = (App.Ok tt, st1) /\
              App.flashes st1 = App.flashes st0 /\
              App.session_diagnosis_results st1 = App.session_diagnosis_results st0).
  { intros s Hs symptoms results st0.
    pose proof (@save_loop_spec s 3 symptoms results st0) as H.
    destruct (@App.save_loop s 3 symptoms results st0) as [o st1].
    destruct H as (_ & H2 & H3 & _ & _ & _ & H7).
    assert (o = App.Ok tt) as ->.
    { destruct o as [[]|e]; [reflexivity|]. exfalso.
      destruct H7 as (k & _ & Hk); [discriminate|]. rewrite Hs in Hk. discriminate. }
    exists st1. auto. }
  destruct (@diagnose_cases platform s1 user_symptoms text st)
    as [(G1 & G2 & E1)|(N1 & [(A1 & E1)|[(A1 & B1 & E1)|(A1 & B1 & E1)]])];
  destruct (@diagnose_cases platform s2 user_symptoms text st)
    as [(G1' & G2' & E2)|(N2 & [(A2 & E2)|[(A2 & B2 & E2)|(A2 & B2 & E2)]])];
    cbv zeta in *; try solve [exfalso; tauto];
    rewrite E1, E2; try solve [split_and!; reflexivity].
  match goal with
  | |- context [@App.save_loop s1 3 ?sy ?rs ?st0] =>
      destruct (Hrun s1 Hs1 sy rs st0) as (st1 & -> & F1 & R1);
      destruct (Hrun s2 Hs2 sy rs st0) as (st2 & -> & F2 & R2)
  end.
  cbn. split_and!; [reflexivity|congruence|congruence].
Qed.

Lemma diagnose_response_independent_of_storage_witness :
  fst (@App.diagnose plain_platform plain_storage ["fever"%string] "" (fresh_state app_globals))
  = fst (@App.diagnose plain_platform failing_storage ["fever"%string] ""
           (fresh_state app_globals)).
Proof.
  apply (diagnose_response_independent_of_storage (platform := plain_platform)
           plain_storage failing_storage ["fever"%string] "" (fresh_state app_globals)).
  - intros [|k]; reflexivity.
  - intros k. reflexivity.
Defined.

(** ** app.py: history and diagnosis_detail *)

Section Reads.
Import App AppFacts.

Context {storage : Storage}.

Lemma read_once_spec {A : Type} (query : list diagnosis_row -> outcome A) (st : state) :
  read_once query st
  = (if read_succeeds_at (read_attempts st) then query (database st) else Error DatabaseError,
     after_reads 1 st).
Proof.
  unfold read_once, after_reads. rewrite Nat.add_1_r.
  destruct (read_succeeds_at (read_attempts st)); reflexivity.
Qed.

Lemma after_reads_after_reads (j k : nat) (st : state) :
  after_reads j (after_reads k st) = after_reads (k + j) st.
Proof. unfold after_reads. cbn. rewrite Nat.add_assoc. reflexivity. Qed.

(** The three passes of a read loop, one after the other. *)
Lemma read_loop_3 {A : Type} (query : list diagnosis_row -> outcome A)
    (show : A -> response) (message : string) (target : endpoint) (st : state) :
  let attempt k :=
    if read_succeeds_at (read_attempts st + k) then query (database st)
    else Error DatabaseError in
  read_loop 3 (x ← read_once query; mret (show x)) message target st
  = match attempt 0%nat with
    | Ok x => (show x, after_reads 1 st)
    | Error _ =>
        match attempt 1%nat with
        | Ok x => (show x, after_reads 2 st)
        | Error _ =>
            match attempt 2%nat with
            | Ok x => (show x, after_reads 3 st)
            | Error _ => (Redirect target, flashed message "danger" (after_reads 3 st))
            end
        end
    end.
Proof.
  cbv zeta. cbn [read_loop]. unfold mbind, M_bind.
  rewrite read_once_spec, Nat.add_0_r.
  destruct (if read_succeeds_at (read_attempts st) then query (database st)
            else Error DatabaseError) as [x|?]; [reflexivity|].
  rewrite read_once_spec. cbn [after_reads read_attempts database].
  rewrite after_reads_after_reads. cbn [Nat.add].
  destruct (if read_succeeds_at (read_attempts st + 1) then query (database st)
            else Error DatabaseError) as [x|?]; [reflexivity|].
  rewrite read_once_spec. cbn [after_reads read_attempts database].
  rewrite after_reads_after_reads. cbn [Nat.add].
  replace (read_attempts st + 2)%nat with (read_attempts st + 1 + 1)%nat by lia.
  destruct (if read_succeeds_at (read_attempts st + 1 + 1) then query (database st)
            else Error DatabaseError) as [x|?]; reflexivity.
Qed.

Lemma get_or_404_missing (rows : list diagnosis_row) (diagnosis_id : Z) :
  (forall row, row ∈ rows -> row_id row <> diagnosis_id) ->
  get_or_404 rows diagnosis_id = Error NotFound.
Proof.
  intros H. unfold get_or_404.
  destruct (find _ rows) as [row|] eqn:E; [|reflexivity]. exfalso.
  apply find_some in E as [Hin Hid]. apply Z.eqb_eq in Hid.
  apply (H row); [apply list_elem_of_In, Hin|exact Hid].
Qed.

Lemma get_or_404_found (rows : list diagnosis_row) (row : diagnosis_row) :
  NoDup (map row_id rows) -> row ∈ rows ->
  get_or_404 rows (row_id row) = Ok row.
Proof.
  intros Hnd Hin. unfold get_or_404.
  induction rows as [|r rows IH]; [inversion Hin|].
  cbn [find]. destruct (row_id r =? row_id row) eqn:E.
  - apply Z.eqb_eq in E. apply elem_of_cons in Hin as [-> |Hin]; [reflexivity|].
    exfalso. cbn in Hnd. apply NoDup_cons in Hnd as [Hr _]. apply Hr.
    rewrite E. apply list_elem_of_fmap. eauto.
  - apply Z.eqb_neq in E. apply elem_of_cons in Hin as [-> |Hin]; [contradiction|].
    cbn in Hnd. apply NoDup_cons in Hnd as [_ Hnd]. apply IH; assumption.
Qed.

(** [diagnosis_detail] for an id that no stored diagnosis has: the
    [NotFound] that [get_or_404] raises is caught like any other
    exception, so the route makes three read attempts, whether or not
    the database answers, and then redirects to the history page with
    the "error retrieving diagnosis details" message. It never renders
    a page for such an id. *)
Theorem diagnosis_detail_unknown_id (diagnosis_id : Z) (st : state) :
  (forall row, row ∈ database st -> row_id row <> diagnosis_id) ->
  diagnosis_detail diagnosis_id st
  = (Redirect History,
     State (tables st) (session_diagnosis_results st) (session_diagnosis_id st)
           (flashes st ++ [("An error occurred while retrieving diagnosis details.",
                            "danger")]%string)
           (database st) (save_attempts st) (read_attempts st + 3)).
Proof.
  intros Hmissing. unfold diagnosis_detail. rewrite read_loop_3. cbv zeta.
  rewrite (get_or_404_missing _ _ Hmissing).
  destruct (read_succeeds_at (read_attempts st + 0));
    destruct (read_succeeds_at (read_attempts st + 1));
    destruct (read_succeeds_at (read_attempts st + 2)); reflexivity.
Qed.

(** [diagnosis_detail] for the id of a stored diagnosis (ids are
    unique): if the [k]-th of the three read attempts is the first that
    goes through, the route makes [k + 1] attempts and renders the
    stored result rows of that diagnosis, all of them and nothing else,
    in the order the database returns them, with nothing flashed. *)
Theorem diagnosis_detail_stored (row : diagnosis_row) (k : nat) (st : state) :
  NoDup (map row_id (database st)) ->
  row ∈ database st ->
  (k < 3)%nat ->
  read_succeeds_at (read_attempts st + k) = true ->
  (forall j, (j < k)%nat -> read_succeeds_at (read_attempts st + j) = false) ->
  exists shown,
    diagnosis_detail (row_id row) st = (RenderStoredResults shown, after_reads (S k) st) /\
    shown ≡ₚ row_results row /\
    shown = by_probability (row_results row).
Proof.
  intros Hnd Hin Hk Hok Hfail.
  exists (by_probability (row_results row)).
  split; [|split; [apply by_probability_perm|reflexivity]].
  unfold diagnosis_detail. rewrite read_loop_3. cbv zeta.
  rewrite (get_or_404_found _ _ Hnd Hin).
  destruct k as [|[|[|k]]]; [| | |lia].
  - rewrite Hok. reflexivity.
  - rewrite (Hfail 0%nat) by lia. rewrite Hok. reflexivity.
  - rewrite (Hfail 0%nat), (Hfail 1%nat) by lia. rewrite Hok. reflexivity.
Qed.

(** What [history] shows when a read goes through: exactly one item
    for each stored diagnosis that has at least one result row, in the
    order in which the newest-first query returns the diagnoses; the
    item carries the id, date and symptoms of its diagnosis and the
    disease and probability of the row that the probability-ordered
    query returns first for that diagnosis; diagnoses without result
    rows are left out. *)
Theorem history_items (k : nat) (st : state) :
  (k < 3)%nat ->
  read_succeeds_at (read_attempts st + k) = true ->
  (forall j, (j < k)%nat -> read_succeeds_at (read_attempts st + j) = false) ->
  exists items,
    history st = (RenderHistory items, after_reads (S k) st) /\
    Forall2 (fun item diagnosis =>
               exists top rest,
                 by_probability (row_results diagnosis) = top :: rest /\
                 item = item_of diagnosis top)
            items (List.filter has_results (newest_first (database st))) /\
    map item_id items = map row_id (List.filter has_results (newest_first (database st))).
Proof.
  intros Hk Hok Hfail.
  set (pick := fun diagnosis =>
         match by_probability (row_results diagnosis) with
         | top_result :: _ =>
             Some (HistoryItem (row_id diagnosis) (row_created_at diagnosis)
                               (row_symptoms diagnosis)
                               (row_disease top_result) (row_probability top_result))
         | [] => None
         end).
  exists (omap pick (newest_first (database st))).
  assert (Hitems :
    Forall2 (fun item diagnosis =>
               exists top rest,
                 by_probability (row_results diagnosis) = top :: rest /\
                 item = item_of diagnosis top)
            (omap pick (newest_first (database st)))
            (List.filter has_results (newest_first (database st)))).
  { induction (newest_first (database st)) as [|d l IH]; [constructor|].
    change (omap pick (d :: l))
      with (match pick d with Some y => y :: omap pick l | None => omap pick l end).
    assert (Hhas : has_results d
                   = match by_probability (row_results d) with
                     | [] => false
                     | _ :: _ => true
                     end).
    { unfold has_results. generalize (by_probability_perm (row_results d)).
      destruct (row_results d) as [|r rs]; destruct (by_probability _) as [|t ts];
        intros Hperm; try reflexivity.
      - apply Permutation_nil_r in Hperm. discriminate.
      - symmetry in Hperm. apply Permutation_nil_r in Hperm. discriminate. }
    cbn [List.filter]. rewrite Hhas. unfold pick at 1.
    destruct (by_probability (row_results d)) as [|top rest] eqn:E; [exact IH|].
    constructor; [|exact IH]. exists top, rest. split; [exact E|reflexivity]. }
  split; [|split; [exact Hitems|]].
  - unfold history. rewrite read_loop_3. cbv zeta. fold pick.
    destruct k as [|[|[|k]]]; [| | |lia].
    + rewrite Hok. reflexivity.
    + rewrite (Hfail 0%nat) by lia. rewrite Hok. reflexivity.
    + rewrite (Hfail 0%nat), (Hfail 1%nat) by lia. rewrite Hok. reflexivity.
  - induction Hitems as [|item d items ds (top & rest & _ & ->) _ IH]; [reflexivity|].
    cbn [map]. rewrite IH. reflexivity.
Qed.

(** When all three read attempts fail, [history] redirects to the index
    page and, for any id, [diagnosis_detail] redirects to the history
    page, each with one "danger" message, after exactly three
    attempts. *)
Theorem reads_give_up_after_three (diagnosis_id : Z) (st : state) :
  (forall j, (j < 3)%nat -> read_succeeds_at (read_attempts st + j) = false) ->
  history st
  = (Redirect Index,
     flashed "An error occurred while retrieving your diagnosis history." "danger"
             (after_reads 3 st)) /\
  diagnosis_detail diagnosis_id st
  = (Redirect History,
     flashed "An error occurred while retrieving diagnosis details." "danger"
             (after_reads 3 st)).
Proof.
  intros Hfail. unfold history, diagnosis_detail. rewrite !read_loop_3. cbv zeta.
  rewrite (Hfail 0%nat), (Hfail 1%nat), (Hfail 2%nat) by lia. split; reflexivity.
Qed.

End Reads.

Lemma diagnosis_detail_unknown_id_witness :
  fst (App.diagnosis_detail (storage := plain_storage) 7 stored_state)
  = App.Redirect App.History.
Proof.
  rewrite (diagnosis_detail_unknown_id (storage := plain_storage) 7 stored_state).
  - reflexivity.
  - intros row Hrow. vm_compute in Hrow.
    apply elem_of_cons in Hrow as [-> |Hrow]; [discriminate|].
    apply elem_of_cons in Hrow as [-> |Hrow]; [discriminate|].
    inversion Hrow.
Defined.

Lemma diagnosis_detail_stored_witness :
  exists shown,
    App.diagnosis_detail (storage := plain_storage) 1 stored_state
    = (App.RenderStoredResults shown, after_reads 2 stored_state).
Proof.
  destruct (diagnosis_detail_stored (storage := plain_storage)
              (App.DiagnosisRow 1 1000 ["fever"; "cough"]
                 [App.ResultRow "flu" Float.hundred (Some (InfoText "a viral infection"))
                    None None None None])%string 1 stored_state)
    as (shown & H & _).
  - cbn. apply NoDup_cons. split; [|apply NoDup_singleton].
    intros H. apply list_elem_of_singleton in H. discriminate.
  - left.
  - lia.
  - reflexivity.
  - intros [|j] Hj; [reflexivity|lia].
  - exists shown. exact H.
Defined.

Lemma history_items_witness :
  exists items,
    App.history (storage := plain_storage) stored_state
    = (App.RenderHistory items, after_reads 2 stored_state) /\
    map App.item_id items = [1].
Proof.
  destruct (history_items (storage := plain_storage) 1 stored_state)
    as (items & H & _ & Hids).
  - lia.
  - reflexivity.
  - intros [|j] Hj; [reflexivity|lia].
  - exists items. split; [exact H|exact Hids].
Defined.

Lemma reads_give_up_after_three_witness :
  fst (App.history (storage := failing_storage) stored_state) = App.Redirect App.Index /\
  fst (App.diagnosis_detail (storage := failing_storage) 1 stored_state)
  = App.Redirect App.History.
Proof.
  destruct (reads_give_up_after_three (storage := failing_storage) 1 stored_state)
    as [H1 H2].
  - intros j Hj. reflexivity.
  - rewrite H1, H2. split; reflexivity.
Defined.

(** ** app.py: diagnose, then diagnosis_detail *)

Section RoundTrip.
Import App AppFacts.

Context {platform : Platform} {storage : Storage}.

(** What [diagnose] stores is what [diagnosis_detail] shows: when
    [diagnose] renders the results page and puts a diagnosis id in the
    session, [diagnosis_detail] for that id renders, as soon as a read
    goes through, exactly one row per entry of the results page, with
    the disease, the probability and the five info fields of that
    entry; the ids of the stored diagnoses being unique. *)
Theorem diagnose_then_diagnosis_detail (user_symptoms : list string) (text : string)
    (st st' : state) (results : list result) (id : Z) (k : nat) :
  diagnose user_symptoms text st = (RenderResults results, st') ->
  session_diagnosis_id st' = Some id ->
  session_diagnosis_id st <> Some id ->
  NoDup (map row_id (database st')) ->
  (k < 3)%nat ->
  read_succeeds_at (read_attempts st' + k) = true ->
  (forall j, (j < k)%nat -> read_succeeds_at (read_attempts st' + j) = false) ->
  exists shown,
    diagnosis_detail id st' = (RenderStoredResults shown, after_reads (S k) st') /\
    shown ≡ₚ map row_of_result results.
Proof.
  intros Hd Hid Hnew Hnd Hk Hok Hfail.
  assert (Hrow : exists row,
            row ∈ database st' /\ row_id row = id /\
            row_results row = map row_of_result results).
  { destruct (diagnose_cases user_symptoms text st)
      as [(_ & _ & E)|(_ & [(_ & E)|[(_ & _ & E)|(_ & _ & E)]])];
      cbv zeta in *; rewrite E in Hd; try discriminate.
    match type of Hd with
    | context [save_loop 3 ?sy ?rs ?st0] =>
        pose proof (save_loop_spec 3 sy rs st0) as Hsave;
        destruct (save_loop 3 sy rs st0) as [[[]|e] st1]; [|discriminate]
    end.
    injection Hd as <- <-.
    destruct Hsave as (_ & _ & _ & _ & _ & (rows & Hdb & _ & Hall & H6) & _).
    cbn in *.
    destruct H6 as [(Hb & _)|(_ & earlier & row & Hr & Hb & _)].
    - exfalso. apply Hnew. rewrite <- Hb. exact Hid.
    - rewrite Hb in Hid. injection Hid as <-. exists row.
      assert (Hin : row ∈ rows) by (rewrite Hr; apply elem_of_app; right; left).
      split_and!; [rewrite Hdb; apply elem_of_app; right; exact Hin|reflexivity|].
      rewrite Forall_forall in Hall. apply (Hall row Hin). }
  destruct Hrow as (row & Hin & <- & Hres).
  exists (by_probability (row_results row)).
  split; [|rewrite <- Hres; apply by_probability_perm].
  unfold diagnosis_detail. rewrite read_loop_3. cbv zeta.
  rewrite (get_or_404_found _ _ Hnd Hin).
  destruct k as [|[|[|k]]]; [| | |lia].
  - rewrite Hok. reflexivity.
  - rewrite (Hfail 0%nat) by lia. rewrite Hok. reflexivity.
  - rewrite (Hfail 0%nat), (Hfail 1%nat) by lia. rewrite Hok. reflexivity.
Qed.

End RoundTrip.

Lemma diagnose_then_diagnosis_detail_witness :
  exists shown,
    shown ≡ₚ map App.row_of_result
               [App.Result "flu" Float.hundred
                  {[ "description" := InfoText "a viral infection" ]}]%string.
Proof.
  destruct (diagnose_then_diagnosis_detail (platform := plain_platform)
              (storage := repeating_storage)
              ["fever"%string] "I have a cough" (fresh_state app_globals)
              (snd (App.diagnose (platform := plain_platform) (storage := repeating_storage)
                      ["fever"%string] "I have a cough" (fresh_state app_globals)))
              [App.Result "flu" Float.hundred
                 {[ "description" := InfoText "a viral infection" ]}]%string
              2 0)
    as (shown & _ & H).
  - vm_compute. reflexivity.
  - vm_compute. reflexivity.
  - discriminate.
  - vm_compute. apply NoDup_cons. split; [|apply NoDup_singleton].
    intros H. apply list_elem_of_singleton in H. discriminate.
  - lia.
  - reflexivity.
  - intros j Hj. lia.
  - exists shown. exact H.
Defined.
